(** * The network interception cache of the optimized Playwright scenarios

    A shallow embedding of the caching layer that
    [tests/amazon-optimized.spec.js],
    [outside-files/tests/airbnb-optimized.spec.js] and
    [outside-files/tests/wikipedia-optimized.spec.js] install with
    [page.route]: the
    blocklist, the cacheability test, the LRU-bounded [httpCache], the
    [pendingRequests] registry that coalesces concurrent fetches, and the
    snapshot file the cache is loaded from and flushed to.

    The three scenario files carry the same code; they differ in one line,
    the regular expression behind [isDynamic].  The development is therefore
    parametrised by that predicate, and the three instances are given. *)

From Stdlib Require Import ZArith NArith QArith Lia Bool List Ascii String.
From Stdlib Require Import Sorting.Sorted Sorting.Permutation DecimalString.
From Stdlib Require Strings.Byte.
From stdpp Require Import base option gmap strings.
Import ListNotations.

Local Open Scope string_scope.
Local Open Scope Z_scope.

(** ** Strings: what the handler asks of a URL *)

Module Str.

(** [s.startsWith(p)] *)
Definition startsWith (s p : string) : bool := String.prefix p s.

(** [s.includes(p)]: [p] occurs somewhere in [s]. *)
Fixpoint includes (s p : string) : bool :=
  String.prefix p s ||
  match s with
  | EmptyString => false
  | String _ s' => includes s' p
  end.

(** Canonicalisation of a character under the [i] flag of a regular
    expression without the [u] flag: ASCII letters fold, nothing else in the
    ASCII range does. *)
Definition fold_case (c : ascii) : ascii :=
  let n := nat_of_ascii c in
  if (Nat.leb 65 n && Nat.leb n 90)%bool then ascii_of_nat (n + 32) else c.

Fixpoint lower (s : string) : string :=
  match s with
  | EmptyString => EmptyString
  | String c s' => String (fold_case c) (lower s')
  end.

(** [/p/i.test(s)] for a pattern [p] made of literal characters. *)
Definition test_i (p s : string) : bool := includes (lower s) (lower p).

(** Line terminators, which [.] does not match.  A request URL is ASCII, so
    only line feed and carriage return can occur. *)
Definition is_line_terminator (c : ascii) : bool :=
  (Nat.eqb (nat_of_ascii c) 10 || Nat.eqb (nat_of_ascii c) 13)%bool.

Fixpoint line_rest (s : string) : string :=
  match s with
  | EmptyString => EmptyString
  | String c s' => if is_line_terminator c then EmptyString else String c (line_rest s')
  end.

Fixpoint drop (n : nat) (s : string) : string :=
  match n, s with
  | O, _ => s
  | S n', String _ s' => drop n' s'
  | S _, EmptyString => EmptyString
  end.

Fixpoint seq_at (a b s : string) : bool :=
  (String.prefix a s && includes (line_rest (drop (String.length a) s)) b) ||
  match s with
  | EmptyString => false
  | String _ s' => seq_at a b s'
  end.

(** [/a.*b/i.test(s)] for literal [a] and [b]. *)
Definition test_seq_i (a b s : string) : bool := seq_at (lower a) (lower b) (lower s).

(** [list.some(p => ...)] *)
Definition some {A} (f : A -> bool) (l : list A) : bool := existsb f l.

End Str.

(** ** The request, and the classification constants *)

Record Request := {
  resourceType : string;
  url : string;
  method : string;
}.

Definition BLOCKED_RESOURCE_TYPES : list string :=
  ["image"; "stylesheet"; "font"; "media"].

Definition BLOCKED_DOMAINS : list string :=
  [ "google-analytics.com"; "googletagmanager.com"; "analytics.google.com";
    "doubleclick.net"; "googleadservices.com"; "facebook.com/tr";
    "facebook.net"; "scorecardresearch.com"; "quantserve.com";
    "adservice.google"; "googlesyndication.com"; "advertising.com";
    "adform.net"; "adsafeprotected.com"; "adnxs.com"; "amazon-adsystem.com";
    "bing.com/analytics"; "hotjar.com"; "mixpanel.com"; "segment.io";
    "newrelic.com"; "optimizely.com"; "fullstory.com"; "mouseflow.com";
    "crazyegg.com"; "clarity.microsoft.com" ].

(** [['image', 'stylesheet', 'font', 'media'].includes(resourceType)] *)
Definition isBlockedType (req : Request) : bool :=
  existsb (String.eqb (resourceType req)) BLOCKED_RESOURCE_TYPES.

(** [BLOCKED_DOMAINS.some(domain => url.includes(domain))] *)
Definition isBlockedDomain (u : string) : bool :=
  Str.some (fun domain => Str.includes u domain) BLOCKED_DOMAINS.

Definition isGet (req : Request) : bool := String.eqb (method req) "GET".

Definition isDataOrBlob (u : string) : bool :=
  Str.startsWith u "data:" || Str.startsWith u "blob:".

(** [/\/login|\/signin|\/logout|\/auth/i.test(url) || /token=|session=|auth=/i.test(url)] *)
Definition isAuthLike (u : string) : bool :=
  (Str.test_i "/login" u || Str.test_i "/signin" u ||
   Str.test_i "/logout" u || Str.test_i "/auth" u) ||
  (Str.test_i "token=" u || Str.test_i "session=" u || Str.test_i "auth=" u).

(** The line in which the scenario files differ. *)
Module Target.

(** Amazon: [/\/api\/|suggestions|search|recommendations/i] *)
Definition amazon (u : string) : bool :=
  Str.test_i "/api/" u || Str.test_i "suggestions" u ||
  Str.test_i "search" u || Str.test_i "recommendations" u.

(** Airbnb: [/\/api\/v1\/|search_results|recommendations/i] *)
Definition airbnb (u : string) : bool :=
  Str.test_i "/api/v1/" u || Str.test_i "search_results" u ||
  Str.test_i "recommendations" u.

(** Wikipedia:
    [/Special:Random|Special:RecentChanges|Special:Watchlist/i.test(url) ||
     /action=query.*titles=/i.test(url) && /format=json/i.test(url)] *)
Definition wikipedia (u : string) : bool :=
  (Str.test_i "Special:Random" u || Str.test_i "Special:RecentChanges" u ||
   Str.test_i "Special:Watchlist" u) ||
  (Str.test_seq_i "action=query" "titles=" u && Str.test_i "format=json" u).

End Target.

(** ** Buffers and their base64 text

    A response body is a [Buffer]; the cache keeps
    [bodyBuffer.toString('base64')] and a hit serves
    [Buffer.from(cached.body, 'base64')]. *)

Module Base64.

Definition Buffer := list Byte.byte.

Definition alphabet : string :=
  "ABCDEFGHIJKLMNOPQRSTUVWXYZabcdefghijklmnopqrstuvwxyz0123456789+/".

(** The character of a 6-bit value. *)
Definition char_of (v : N) : ascii :=
  match String.get (N.to_nat v) alphabet with
  | Some c => c
  | None => "="%char
  end.

Fixpoint index_of (c : ascii) (s : string) (i : N) : option N :=
  match s with
  | EmptyString => None
  | String d s' => if Ascii.eqb c d then Some i else index_of c s' (i + 1)%N
  end.

(** The 6-bit value of a character; the decoder also reads the URL-safe
    characters [-] and [_]. *)
Definition value_of (c : ascii) : option N :=
  if Ascii.eqb c "-" then Some 62%N
  else if Ascii.eqb c "_" then Some 63%N
  else index_of c alphabet 0%N.

Definition byte_of (n : N) : Byte.byte :=
  match Byte.of_N (n mod 256)%N with
  | Some b => b
  | None => Byte.x00
  end.

Definition quad (a b c : N) : string :=
  String (char_of (a / 4)%N)
    (String (char_of ((a mod 4) * 16 + b / 16)%N)
       (String (char_of ((b mod 16) * 4 + c / 64)%N)
          (String (char_of (c mod 64)%N) EmptyString))).

(** [buf.toString('base64')] *)
Fixpoint encode (buf : Buffer) : string :=
  match buf with
  | [] => EmptyString
  | [a] =>
      let a := Byte.to_N a in
      String (char_of (a / 4)%N) (String (char_of ((a mod 4) * 16)%N) "==")
  | [a; b] =>
      let a := Byte.to_N a in
      let b := Byte.to_N b in
      String (char_of (a / 4)%N)
        (String (char_of ((a mod 4) * 16 + b / 16)%N)
           (String (char_of ((b mod 16) * 4)%N) "="))
  | a :: b :: c :: rest =>
      quad (Byte.to_N a) (Byte.to_N b) (Byte.to_N c) ++ encode rest
  end.

(** The 6-bit values of a text: characters outside the alphabet are skipped,
    the first padding character ends the text. *)
Fixpoint sextets (s : string) : list N :=
  match s with
  | EmptyString => []
  | String c s' =>
      if Ascii.eqb c "=" then []
      else match value_of c with
           | Some v => v :: sextets s'
           | None => sextets s'
           end
  end.

Fixpoint bytes_of (l : list N) : Buffer :=
  match l with
  | a :: b :: c :: d :: rest =>
      byte_of (a * 4 + b / 16) :: byte_of ((b mod 16) * 16 + c / 4)
        :: byte_of ((c mod 4) * 64 + d) :: bytes_of rest
  | [a; b; c] =>
      [byte_of (a * 4 + b / 16); byte_of ((b mod 16) * 16 + c / 4)]
  | [a; b] => [byte_of (a * 4 + b / 16)]
  | _ => []
  end%N.

(** [Buffer.from(text, 'base64')] *)
Definition decode (text : string) : Buffer := bytes_of (sextets text).

End Base64.

(** ** The data model *)

Definition Headers := list (string * string).

(** What [route.fetch()] yields and [route.fulfill] takes:
    [{ status, headers, body }] with [body] a [Buffer]. *)
Module Result.
Record t := make { status : Z; headers : Headers; body : Base64.Buffer }.
End Result.

(** A value of [httpCache]: [{ status, headers, body, lastAccess }] with
    [body] the base64 text. *)
Module Entry.
Record t := make { status : Z; headers : Headers; body : string; lastAccess : Z }.

Definition touch (now : Z) (e : t) : t :=
  {| status := status e; headers := headers e; body := body e; lastAccess := now |}.

(** The part of an entry that is the cached response. *)
Definition content (e : t) : Z * Headers * string := (status e, headers e, body e).
End Entry.

(** A JavaScript object used as a map from URL to entry.  [Object.entries]
    lists the properties in insertion order (a URL is never an integer-like
    key, and never the name of a property of [Object.prototype]); assigning to
    a present key keeps its place, [delete] removes it. *)
Module Obj.

Definition t := list (string * Entry.t).

Fixpoint get (k : string) (o : t) : option Entry.t :=
  match o with
  | [] => None
  | (k', v) :: o' => if String.eqb k k' then Some v else get k o'
  end.

Fixpoint set (k : string) (v : Entry.t) (o : t) : t :=
  match o with
  | [] => [(k, v)]
  | (k', v') :: o' => if String.eqb k k' then (k, v) :: o' else (k', v') :: set k v o'
  end.

Definition remove (k : string) (o : t) : t :=
  List.filter (fun kv => negb (String.eqb k (fst kv))) o.

Definition keys (o : t) : list string := map fst o.

(** The keys with the cached responses, access times left out. *)
Definition contents (o : t) : list (string * (Z * Headers * string)) :=
  map (fun kv => (fst kv, Entry.content (snd kv))) o.

(** An object has each key once. *)
Definition wf (o : t) : Prop := NoDup (keys o).

(** [delete o[k]] for each [k] of [ks], in turn. *)
Definition removeKeys (ks : list string) (o : t) : t :=
  fold_left (fun o k => remove k o) ks o.

End Obj.

Record CacheStats := { hits : Z; misses : Z; writes : Z; evictions : Z }.
Record DedupStats := { duplicates : Z; unique : Z }.
Record DomainBlockStats := { blocked : Z }.

(** The constants read from the environment.  [parseInt] gives an integer or
    [NaN], [parseFloat] a number or [NaN]; [None] stands for [NaN], with which
    every comparison is false. *)
Record Config := {
  CACHE_ENABLED : bool;
  CACHE_CLEAR : bool;
  MAX_CACHE_ENTRIES : option Z;
  MAX_CACHE_SIZE_MB : option Q;
  DEDUP_ENABLED : bool;
  DOMAIN_BLOCKING_ENABLED : bool;
}.

(** The configuration of an environment that sets none of the variables. *)
Definition default_config : Config := {|
  CACHE_ENABLED := true;
  CACHE_CLEAR := false;
  MAX_CACHE_ENTRIES := Some 100;
  MAX_CACHE_SIZE_MB := Some (50 # 1);
  DEDUP_ENABLED := true;
  DOMAIN_BLOCKING_ENABLED := true;
|}.

(** [x >= m] for a count [x] *)
Definition ge_count (x : nat) (m : option Z) : bool :=
  match m with
  | Some m => m <=? Z.of_nat x
  | None => false
  end.

(** [x >= m] for a size [x] *)
Definition ge_size (x : Q) (m : option Q) : bool :=
  match m with
  | Some m => Qle_bool m x
  | None => false
  end.

(** [x || 0] for a number [x] *)
Definition or_zero (x : Z) : Z := if x =? 0 then 0 else x.

(** [x || y] for a number [x] *)
Definition or_else (x y : Z) : Z := if x =? 0 then y else x.

(** [(a, b) => (a[1].lastAccess || 0) - (b[1].lastAccess || 0)] *)
Definition compareFn (a b : string * Entry.t) : Z :=
  or_zero (Entry.lastAccess (snd a)) - or_zero (Entry.lastAccess (snd b)).

(** The order of eviction: [a] was accessed no later than [b]. *)
Definition older (a b : string * Entry.t) : Prop :=
  Entry.lastAccess (snd a) <= Entry.lastAccess (snd b).

(** [Array.prototype.sort] is stable: with a consistent comparator its result
    is the sorted rearrangement in which equal elements keep their order,
    which an insertion sort builds. *)
Module JsArray.
Section Sort.
Context {A : Type} (cmp : A -> A -> Z).

Fixpoint place (x : A) (l : list A) : list A :=
  match l with
  | [] => [x]
  | y :: l' => if cmp x y <=? 0 then x :: l else y :: place x l'
  end.

Fixpoint sort (l : list A) : list A :=
  match l with
  | [] => []
  | x :: l' => place x (sort l')
  end.

End Sort.
End JsArray.

(** ** The promises of the registry, and what the host observes *)

(** How the awaited upstream fetch of the owner ends: [route.fetch()]
    followed by [response.body()].  Nothing of the shared state is touched
    between the two awaits, so they are one suspension here.  A rejection of
    either is [Rejects]; [Empty] is a falsy response. *)
Inductive FetchOutcome :=
| Responds (r : Result.t)
| Empty
| Rejects.

(** What becomes of an intercepted route. *)
Inductive Disposal :=
| Aborted                      (* route.abort() *)
| Fulfilled (r : Result.t)     (* route.fulfill({ status, headers, body }) *)
| Continued                    (* route.continue(): forwarded unmodified *)
| Threw.                       (* the handler ended in an exception *)

(** A [requestPromise], named by the route of the request that created it. *)
Inductive PromiseState :=
| Pending (waiters : list nat)   (* routes suspended at [await pendingRequests.get(key)] *)
| Settled (r : option Result.t)  (* fulfilled with a result or with [null] *)
| Rejected.

Record Promise := { p_key : string; p_state : PromiseState }.

Record State := {
  httpCache : Obj.t;
  cacheStats : CacheStats;
  dedupStats : DedupStats;
  domainBlockStats : DomainBlockStats;
  cacheDirty : bool;
  pendingRequests : gmap string nat;
  (* the host's side *)
  promises : gmap nat Promise;
  fetched : list (nat * string);      (* the calls of route.fetch(), in order *)
  handled : list (nat * Disposal);    (* the routes disposed of, in order *)
}.

(** Every promise still pending is the one the registry holds for its key. *)
Definition registered (st : State) : Prop :=
  forall pid p waiters,
    promises st !! pid = Some p -> p_state p = Pending waiters ->
    pendingRequests st !! p_key p = Some pid.

Definition initial : State := {|
  httpCache := [];
  cacheStats := {| hits := 0; misses := 0; writes := 0; evictions := 0 |};
  dedupStats := {| duplicates := 0; unique := 0 |};
  domainBlockStats := {| blocked := 0 |};
  cacheDirty := false;
  pendingRequests := ∅;
  promises := ∅;
  fetched := [];
  handled := [];
|}.

(** Field updates. *)
Definition set_httpCache (c : Obj.t) (st : State) : State :=
  {| httpCache := c; cacheStats := cacheStats st; dedupStats := dedupStats st;
     domainBlockStats := domainBlockStats st; cacheDirty := cacheDirty st;
     pendingRequests := pendingRequests st; promises := promises st;
     fetched := fetched st; handled := handled st |}.

Definition set_cacheStats (s : CacheStats) (st : State) : State :=
  {| httpCache := httpCache st; cacheStats := s; dedupStats := dedupStats st;
     domainBlockStats := domainBlockStats st; cacheDirty := cacheDirty st;
     pendingRequests := pendingRequests st; promises := promises st;
     fetched := fetched st; handled := handled st |}.

Definition set_dedupStats (s : DedupStats) (st : State) : State :=
  {| httpCache := httpCache st; cacheStats := cacheStats st; dedupStats := s;
     domainBlockStats := domainBlockStats st; cacheDirty := cacheDirty st;
     pendingRequests := pendingRequests st; promises := promises st;
     fetched := fetched st; handled := handled st |}.

Definition set_domainBlockStats (s : DomainBlockStats) (st : State) : State :=
  {| httpCache := httpCache st; cacheStats := cacheStats st; dedupStats := dedupStats st;
     domainBlockStats := s; cacheDirty := cacheDirty st;
     pendingRequests := pendingRequests st; promises := promises st;
     fetched := fetched st; handled := handled st |}.

Definition set_cacheDirty (b : bool) (st : State) : State :=
  {| httpCache := httpCache st; cacheStats := cacheStats st; dedupStats := dedupStats st;
     domainBlockStats := domainBlockStats st; cacheDirty := b;
     pendingRequests := pendingRequests st; promises := promises st;
     fetched := fetched st; handled := handled st |}.

Definition set_pendingRequests (m : gmap string nat) (st : State) : State :=
  {| httpCache := httpCache st; cacheStats := cacheStats st; dedupStats := dedupStats st;
     domainBlockStats := domainBlockStats st; cacheDirty := cacheDirty st;
     pendingRequests := m; promises := promises st;
     fetched := fetched st; handled := handled st |}.

Definition set_promises (m : gmap nat Promise) (st : State) : State :=
  {| httpCache := httpCache st; cacheStats := cacheStats st; dedupStats := dedupStats st;
     domainBlockStats := domainBlockStats st; cacheDirty := cacheDirty st;
     pendingRequests := pendingRequests st; promises := m;
     fetched := fetched st; handled := handled st |}.

Definition set_fetched (l : list (nat * string)) (st : State) : State :=
  {| httpCache := httpCache st; cacheStats := cacheStats st; dedupStats := dedupStats st;
     domainBlockStats := domainBlockStats st; cacheDirty := cacheDirty st;
     pendingRequests := pendingRequests st; promises := promises st;
     fetched := l; handled := handled st |}.

Definition set_handled (l : list (nat * Disposal)) (st : State) : State :=
  {| httpCache := httpCache st; cacheStats := cacheStats st; dedupStats := dedupStats st;
     domainBlockStats := domainBlockStats st; cacheDirty := cacheDirty st;
     pendingRequests := pendingRequests st; promises := promises st;
     fetched := fetched st; handled := l |}.

(** [cacheStats.hits++] and its like *)
Definition incr_hits (st : State) : State :=
  let s := cacheStats st in
  set_cacheStats {| hits := hits s + 1; misses := misses s; writes := writes s;
                    evictions := evictions s |} st.

Definition incr_misses (st : State) : State :=
  let s := cacheStats st in
  set_cacheStats {| hits := hits s; misses := misses s + 1; writes := writes s;
                    evictions := evictions s |} st.

Definition incr_writes (st : State) : State :=
  let s := cacheStats st in
  set_cacheStats {| hits := hits s; misses := misses s; writes := writes s + 1;
                    evictions := evictions s |} st.

Definition add_evictions (n : Z) (st : State) : State :=
  let s := cacheStats st in
  set_cacheStats {| hits := hits s; misses := misses s; writes := writes s;
                    evictions := evictions s + n |} st.

Definition incr_duplicates (st : State) : State :=
  let s := dedupStats st in
  set_dedupStats {| duplicates := duplicates s + 1; unique := unique s |} st.

Definition incr_unique (st : State) : State :=
  let s := dedupStats st in
  set_dedupStats {| duplicates := duplicates s; unique := unique s + 1 |} st.

Definition incr_blocked (st : State) : State :=
  set_domainBlockStats {| blocked := blocked (domainBlockStats st) + 1 |} st.

(** The route is disposed of. *)
Definition dispose (route : nat) (d : Disposal) (st : State) : State :=
  set_handled (handled st ++ [(route, d)]) st.

Definition disposeAll (routes : list nat) (d : Disposal) (st : State) : State :=
  fold_left (fun st route => dispose route d st) routes st.

(** The snapshot file [.cache/http-cache.json].  A readable snapshot is a
    mapping from key to entry, where an entry written by hand may lack
    [lastAccess]; [Unreadable] is any content on which reading or parsing
    throws. *)
Module Snapshot.
Record entry := { status : Z; headers : Headers; body : string; lastAccess : option Z }.

Inductive file :=
| Missing
| Unreadable
| Mapping (m : list (string * entry)).

Definition exists_ (f : file) : bool :=
  match f with
  | Missing => false
  | _ => true
  end.

(** The JSON value of an entry of [httpCache]. *)
Definition of_entry (e : Entry.t) : entry :=
  {| status := Entry.status e; headers := Entry.headers e; body := Entry.body e;
     lastAccess := Some (Entry.lastAccess e) |}.

(** [{ ...value, lastAccess: value.lastAccess || Date.now() }] *)
Definition to_entry (now : Z) (v : entry) : Entry.t :=
  {| Entry.status := status v; Entry.headers := headers v; Entry.body := body v;
     Entry.lastAccess := match lastAccess v with
                         | Some t => or_else t now
                         | None => now
                         end |}.
End Snapshot.

Inductive Event :=
| Intercept (route : nat) (req : Request) (now : Z)  (* a request reaches the handler *)
| Settle (pid : nat) (o : FetchOutcome) (now : Z).   (* the owner's awaited fetch ends *)

(** ** The code *)

Section Layer.

(** The environment's constants. *)
Variable cfg : Config.

(** The scenario's [isDynamic] test. *)
Variable isDynamic : string -> bool.

(** [Buffer.byteLength(JSON.stringify(httpCache), 'utf8')], a function of the
    platform; nothing below depends on how it counts. *)
Variable jsonByteLength : Obj.t -> N.

(** [getCacheSizeMB()].  The quotient of a byte count by 2^20 is exact in
    double precision, so the comparison with the ceiling is one of rationals. *)
Definition getCacheSizeMB (c : Obj.t) : Q :=
  inject_Z (Z.of_N (jsonByteLength c)) / inject_Z (1024 * 1024).

Definition needsEvictionByCount (c : Obj.t) : bool :=
  ge_count (length c) (MAX_CACHE_ENTRIES cfg).

Definition needsEvictionBySize (c : Obj.t) : bool :=
  ge_size (getCacheSizeMB c) (MAX_CACHE_SIZE_MB cfg).

(** [stillNeedsEviction], evaluated on the current [httpCache] *)
Definition stillNeedsEviction (c : Obj.t) : bool :=
  needsEvictionByCount c || needsEvictionBySize c.

(** The [for (const [key] of entries)] loop of [evictLRU]: the cache and the
    number of evicted entries. *)
Fixpoint evictLoop (entries : list (string * Entry.t)) (c : Obj.t) (evicted : Z)
  : Obj.t * Z :=
  match entries with
  | [] => (c, evicted)
  | (key, _) :: rest =>
      if stillNeedsEviction c
      then evictLoop rest (Obj.remove key c) (evicted + 1)
      else (c, evicted)
  end.

Definition evictLRU (st : State) : State :=
  let entries := httpCache st in
  if negb (needsEvictionByCount entries) && negb (needsEvictionBySize entries)
  then st
  else
    let sorted := JsArray.sort compareFn entries in
    let '(c, evicted) := evictLoop sorted (httpCache st) 0 in
    let st := set_httpCache c st in
    if 0 <? evicted
    then set_cacheDirty true (add_evictions evicted st)
    else st.

(** The block under [if (status >= 200 && status < 400)]: the cache write. *)
Definition put (key : string) (r : Result.t) (now : Z) (st : State) : State :=
  let st := evictLRU st in
  let e := {| Entry.status := Result.status r;
              Entry.headers := Result.headers r;
              Entry.body := Base64.encode (Result.body r);
              Entry.lastAccess := now |} in
  set_cacheDirty true (set_httpCache (Obj.set key e (httpCache st)) st).

(** A sequence of cache writes. *)
Definition putAll (ps : list (string * Result.t * Z)) (st : State) : State :=
  fold_left (fun st p => put (fst (fst p)) (snd (fst p)) (snd p) st) ps st.

(** The condition that opens the caching branch. *)
Definition cacheable (req : Request) : bool :=
  CACHE_ENABLED cfg && isGet req && negb (isDataOrBlob (url req)) &&
  negb (isAuthLike (url req)) && negb (isDynamic (url req)).

Definition isBlocked (req : Request) : bool :=
  isBlockedType req || (DOMAIN_BLOCKING_ENABLED cfg && isBlockedDomain (url req)).

(** The cache-hit branch. *)
Definition serveCached (route : nat) (key : string) (cached : Entry.t) (now : Z)
    (st : State) : State :=
  let st := incr_hits st in
  let st := set_httpCache (Obj.set key (Entry.touch now cached) (httpCache st)) st in
  dispose route
    (Fulfilled {| Result.status := Entry.status cached;
                  Result.headers := Entry.headers cached;
                  Result.body := Base64.decode (Entry.body cached) |}) st.

(** [await pendingRequests.get(key)] and what follows it.  On a pending
    promise the route waits; a promise that already ended is read at once.
    A result of [null] makes [pendingResponse.status] throw. *)
Definition disposalOfWaiter (r : option Result.t) : Disposal :=
  match r with
  | Some r => Fulfilled r
  | None => Threw
  end.

Definition joinPending (route : nat) (key : string) (st : State) : State :=
  match pendingRequests st !! key with
  | Some pid =>
      match promises st !! pid with
      | Some p =>
          match p_state p with
          | Pending waiters =>
              set_promises
                (<[pid := {| p_key := p_key p; p_state := Pending (waiters ++ [route]) |}]>
                   (promises st)) st
          | Settled r => dispose route (disposalOfWaiter r) st
          | Rejected => dispose route Threw st
          end
      | None => st
      end
  | None => st
  end.

(** The owner's branch up to [await requestPromise]: the async function is
    entered and runs to its first await, which calls [route.fetch()]; the
    promise it returns is registered. *)
Definition startFetch (route : nat) (key : string) (st : State) : State :=
  let st := incr_unique (incr_misses st) in
  let st := set_fetched (fetched st ++ [(route, key)]) st in
  let st := set_promises (<[route := {| p_key := key; p_state := Pending [] |}]> (promises st)) st in
  set_pendingRequests (<[key := route]> (pendingRequests st)) st.

(** The handler given to [page.route], up to its first suspension. *)
Definition handler (route : nat) (req : Request) (now : Z) (st : State) : State :=
  if isBlockedType req then dispose route Aborted st
  else if DOMAIN_BLOCKING_ENABLED cfg && isBlockedDomain (url req)
  then dispose route Aborted (incr_blocked st)
  else if cacheable req then
    let key := url req in
    match Obj.get key (httpCache st) with
    | Some cached => serveCached route key cached now st
    | None =>
        if DEDUP_ENABLED cfg && bool_decide (is_Some (pendingRequests st !! key))
        then joinPending route key (incr_duplicates st)
        else startFetch route key st
    end
  else dispose route Continued st.

(** The owner's disposal once [await requestPromise] yields. *)
Definition disposalOfOwner (r : option Result.t) : Disposal :=
  match r with
  | Some r => Fulfilled r
  | None => Continued
  end.

(** The rest of the async function after its await, then the continuations
    of the routes awaiting the promise: the owner first, the waiters in the
    order they joined. *)
Definition settle (pid : nat) (o : FetchOutcome) (now : Z) (st : State) : State :=
  match promises st !! pid with
  | Some p =>
      match p_state p with
      | Pending waiters =>
          let key := p_key p in
          match o with
          | Rejects =>
              let st := set_promises (<[pid := {| p_key := key; p_state := Rejected |}]> (promises st)) st in
              disposeAll waiters Threw (dispose pid Threw st)
          | Empty =>
              let st := set_pendingRequests (delete key (pendingRequests st)) st in
              let st := set_promises (<[pid := {| p_key := key; p_state := Settled None |}]> (promises st)) st in
              disposeAll waiters (disposalOfWaiter None) (dispose pid (disposalOfOwner None) st)
          | Responds r =>
              let st := if (200 <=? Result.status r) && (Result.status r <? 400)
                        then put key r now st else st in
              let st := set_pendingRequests (delete key (pendingRequests st)) st in
              let st := set_promises (<[pid := {| p_key := key; p_state := Settled (Some r) |}]> (promises st)) st in
              disposeAll waiters (disposalOfWaiter (Some r)) (dispose pid (disposalOfOwner (Some r)) st)
          end
      | _ => st
      end
  | None => st
  end.

Definition step (st : State) (ev : Event) : State :=
  match ev with
  | Intercept route req now => handler route req now st
  | Settle pid o now => settle pid o now st
  end.

Definition run (evs : list Event) (st : State) : State := fold_left step evs st.

(** The module's start-up block: the state the process begins with, and the
    file as it leaves it.  [Date.now()] is taken once for the whole loop. *)
Definition loadCache (now : Z) (f : Snapshot.file) : State * Snapshot.file :=
  if CACHE_ENABLED cfg then
    let f := if CACHE_CLEAR cfg && Snapshot.exists_ f then Snapshot.Missing else f in
    match f with
    | Snapshot.Missing => (initial, f)
    | Snapshot.Unreadable => (initial, f)
    | Snapshot.Mapping m =>
        let c := fold_left (fun c kv => Obj.set (fst kv) (Snapshot.to_entry now (snd kv)) c) m [] in
        (evictLRU (set_httpCache c initial), f)
    end
  else (initial, f).

(** [writeCacheToDisk()] when nothing is handled during the await of the
    write; [ok] tells whether creating the directory and writing the file
    succeed (a failure is caught and reported, the file taken as left alone).
    [writeCacheToDiskAwaited] below has the events of the await and the file
    a failed write leaves. *)
Definition writeCacheToDisk (ok : bool) (st : State) (f : Snapshot.file)
  : State * Snapshot.file :=
  if negb (cacheDirty st) || negb (CACHE_ENABLED cfg) then (st, f)
  else if ok
  then (incr_writes (set_cacheDirty false st),
        Snapshot.Mapping (map (fun kv => (fst kv, Snapshot.of_entry (snd kv))) (httpCache st)))
  else (st, f).

(** The event is a request that the cache [c] answers. *)
Definition isHit (c : Obj.t) (ev : Event) : bool :=
  match ev with
  | Intercept _ req _ =>
      negb (isBlocked req) && cacheable req &&
      match Obj.get (url req) c with
      | Some _ => true
      | None => false
      end
  | Settle _ _ _ => false
  end.

(** The store is above a ceiling when it exceeds it. *)
Definition aboveCount (c : Obj.t) : bool :=
  match MAX_CACHE_ENTRIES cfg with
  | Some m => m <? Z.of_nat (length c)
  | None => false
  end.

Definition aboveSize (c : Obj.t) : bool :=
  match MAX_CACHE_SIZE_MB cfg with
  | Some m => negb (Qle_bool (getCacheSizeMB c) m)
  | None => false
  end.

Definition aboveBoth (c : Obj.t) : bool := aboveCount c && aboveSize c.

End Layer.

(** ** An executable [jsonByteLength]

    The length in bytes of [JSON.stringify(httpCache)] for a cache whose
    texts are ASCII and whose numbers are integers; it instantiates the
    parameter of the layer where a run is computed. *)

Module Json.

Definition char_length (c : ascii) : N :=
  let n := nat_of_ascii c in
  if (Nat.eqb n 34 || Nat.eqb n 92)%bool then 2%N                      (* quote, backslash *)
  else if (Nat.eqb n 8 || Nat.eqb n 9 || Nat.eqb n 10 || Nat.eqb n 12 || Nat.eqb n 13)%bool
  then 2%N                                                             (* the short escapes *)
  else if Nat.ltb n 32 then 6%N                                        (* the six-character escape *)
  else 1%N.

Fixpoint chars_length (s : string) : N :=
  match s with
  | EmptyString => 0%N
  | String c s' => (char_length c + chars_length s')%N
  end.

Definition string_length (s : string) : N := (2 + chars_length s)%N.

Definition number_length (z : Z) : N :=
  N.of_nat (String.length (NilZero.string_of_int (Z.to_int z))).

(** The members of an object or array, separated by commas, between two
    delimiters. *)
Definition members_length (ls : list N) : N :=
  (2 + fold_right N.add 0 ls + N.of_nat (Nat.pred (length ls)))%N.

Definition headers_length (h : Headers) : N :=
  members_length (map (fun kv => string_length (fst kv) + 1 + string_length (snd kv))%N h).

Definition entry_length (e : Entry.t) : N :=
  members_length
    [ (string_length "status" + 1 + number_length (Entry.status e))%N;
      (string_length "headers" + 1 + headers_length (Entry.headers e))%N;
      (string_length "body" + 1 + string_length (Entry.body e))%N;
      (string_length "lastAccess" + 1 + number_length (Entry.lastAccess e))%N ].

Definition byteLength (c : Obj.t) : N :=
  members_length (map (fun kv => string_length (fst kv) + 1 + entry_length (snd kv))%N c).

End Json.

(** ** Inputs for the examples *)

Module Sample.

Definition page (u : string) : Request :=
  {| resourceType := "document"; url := u; method := "GET" |}.

Definition picture (u : string) : Request :=
  {| resourceType := "image"; url := u; method := "GET" |}.

Definition ok_html : Result.t :=
  {| Result.status := 200;
     Result.headers := [("content-type", "text/html")];
     Result.body := [Byte.x3c; Byte.x70; Byte.x3e; Byte.x68; Byte.x69] |}.

Definition entry_at (t : Z) : Entry.t :=
  {| Entry.status := 200; Entry.headers := []; Entry.body := "aGk="; Entry.lastAccess := t |}.

(** A state whose cache is [c]. *)
Definition with_cache (c : Obj.t) : State := set_httpCache c initial.

(** [n] pages fetched one after the other, each answered before the next is
    requested: request [i] comes at time [2i+1], its answer at [2i+2]. *)
Definition nth_url (i : nat) : string :=
  "https://www.amazon.com/dp/" ++ NilZero.string_of_uint (Nat.to_uint i).

Definition visit (i : nat) : list Event :=
  [ Intercept i (page (nth_url i)) (Z.of_nat (2 * i + 1));
    Settle i (Responds ok_html) (Z.of_nat (2 * i + 2)) ].

Definition visits (n : nat) : list Event := flat_map visit (seq 0 n).


(** A configuration with room for three entries. *)
Definition three_entries : Config := {|
  CACHE_ENABLED := true;
  CACHE_CLEAR := false;
  MAX_CACHE_ENTRIES := Some 3;
  MAX_CACHE_SIZE_MB := Some (50 # 1);
  DEDUP_ENABLED := true;
  DOMAIN_BLOCKING_ENABLED := true;
|}.

(** A configuration whose two ceilings are zero. *)
Definition no_room : Config := {|
  CACHE_ENABLED := true;
  CACHE_CLEAR := false;
  MAX_CACHE_ENTRIES := Some 0;
  MAX_CACHE_SIZE_MB := Some (0 # 1);
  DEDUP_ENABLED := true;
  DOMAIN_BLOCKING_ENABLED := true;
|}.

End Sample.

(** ** Events between two points of a run *)

(** The event is a request reaching the handler, not the end of a fetch. *)
Definition isIntercept (ev : Event) : bool :=
  match ev with
  | Intercept _ _ _ => true
  | Settle _ _ _ => false
  end.

(** ** The flush and its await

    [writeCacheToDisk] serialises the store, awaits the write, and only then
    clears [cacheDirty] and counts the write.  Requests and ends of fetches
    can be handled during the await: [evs] are those events.  The early
    return, for a clean store or a disabled cache, has no await. *)

(** How the awaited write ends: the text serialised at the call is in the
    file, or something threw and the file is left in some state. *)
Inductive WriteOutcome :=
| Written
| WriteFailed (remains : Snapshot.file).

Definition writeCacheToDiskAwaited (cfg : Config) (isDynamic : string -> bool)
    (size : Obj.t -> N) (evs : list Event) (o : WriteOutcome)
    (st : State) (f : Snapshot.file) : State * Snapshot.file :=
  if negb (cacheDirty st) || negb (CACHE_ENABLED cfg) then (st, f)
  else
    let text := map (fun kv => (fst kv, Snapshot.of_entry (snd kv))) (httpCache st) in
    let st := run cfg isDynamic size evs st in
    match o with
    | Written => (incr_writes (set_cacheDirty false st), Snapshot.Mapping text)
    | WriteFailed remains => (st, remains)
    end.

(** Inputs for further examples. *)
Module Scenario.


(** A configuration with room for two entries. *)
Definition two_entries : Config := {|
  CACHE_ENABLED := true;
  CACHE_CLEAR := false;
  MAX_CACHE_ENTRIES := Some 2;
  MAX_CACHE_SIZE_MB := Some (50 # 1);
  DEDUP_ENABLED := true;
  DOMAIN_BLOCKING_ENABLED := true;
|}.

End Scenario.

(** ** Counting the requests of a run *)

(** The event is a request that reaches the caching branch of the handler. *)
Definition reachesCache (cfg : Config) (isDynamic : string -> bool) (ev : Event) : bool :=
  match ev with
  | Intercept _ req _ => negb (isBlocked cfg req) && cacheable cfg isDynamic req
  | Settle _ _ _ => false
  end.

(** The registry points at promises that exist. *)
Definition grounded (st : State) : Prop :=
  forall key pid, pendingRequests st !! key = Some pid -> is_Some (promises st !! pid).

(** The route is suspended on a promise that is still pending: as the owner
    of the promise, or as one of its waiters. *)
Definition suspended (st : State) (route : nat) : Prop :=
  exists pid p waiters,
    promises st !! pid = Some p /\ p_state p = Pending waiters /\
    (route = pid \/ In route waiters).

(** The six ways the handler can go. *)
Inductive Branch (cfg : Config) (isDynamic : string -> bool)
    (route : nat) (req : Request) (now : Z) (st : State) : State -> Prop :=
| AbortType :
    isBlockedType req = true ->
    Branch cfg isDynamic route req now st (dispose route Aborted st)
| AbortDomain :
    isBlockedType req = false ->
    DOMAIN_BLOCKING_ENABLED cfg && isBlockedDomain (url req) = true ->
    Branch cfg isDynamic route req now st (dispose route Aborted (incr_blocked st))
| Forward :
    isBlocked cfg req = false -> cacheable cfg isDynamic req = false ->
    Branch cfg isDynamic route req now st (dispose route Continued st)
| Hit cached :
    isBlocked cfg req = false -> cacheable cfg isDynamic req = true ->
    Obj.get (url req) (httpCache st) = Some cached ->
    Branch cfg isDynamic route req now st (serveCached route (url req) cached now st)
| Join pid :
    isBlocked cfg req = false -> cacheable cfg isDynamic req = true ->
    Obj.get (url req) (httpCache st) = None ->
    DEDUP_ENABLED cfg = true -> pendingRequests st !! url req = Some pid ->
    Branch cfg isDynamic route req now st (joinPending route (url req) (incr_duplicates st))
| Start :
    isBlocked cfg req = false -> cacheable cfg isDynamic req = true ->
    Obj.get (url req) (httpCache st) = None ->
    DEDUP_ENABLED cfg = false \/ pendingRequests st !! url req = None ->
    Branch cfg isDynamic route req now st (startFetch route (url req) st).

(** ** The authentication set-up

    [auth.setup.js]: the check of the saved storage state and the decision to
    reuse it, to skip authentication, or to log in. *)

Module Auth.

(** A cookie of the storage state, as far as the check reads it: [expires],
    in seconds, or nothing when the property is absent. *)
Record Cookie := { expires : option Q }.

(** What [JSON.parse] of the file gives: a state whose [cookies] is a list or
    is absent, or [Unparsable] for any content on which reading, parsing or
    the check itself throws. *)
Inductive Content :=
| Unparsable
| State (cookies : option (list Cookie)).

(** The file [.auth/user.json]: absent, or with a content. *)
Definition File := option Content.

(** [{ cookies: [], origins: [] }] *)
Definition emptyState : Content := State (Some []).

(** The variables of the environment the set-up reads:
    [parseInt(AUTH_EXPIRY_MINUTES || '60', 10)], [None] for [NaN];
    [PLAYWRIGHT_AUTH_FORCE === 'true']; [AUTH_DISABLED === 'true']. *)
Record Env := {
  expiryMinutes : option Z;
  force : bool;
  disabled : bool;
}.

Definition default_env : Env :=
  {| expiryMinutes := Some 60; force := false; disabled := false |}.

(** [!cookie.expires || cookie.expires > now] *)
Definition cookieValid (now : Q) (c : Cookie) : bool :=
  match expires c with
  | None => true
  | Some e => Qeq_bool e 0 || negb (Qle_bool e now)
  end.

(** [fileAge >= maxAge] with [maxAge = 1000 * 60 * expiryMinutes], a product
    that is exact for any window short of 2^53 milliseconds *)
Definition tooOld (env : Env) (fileAge : Q) : bool :=
  match expiryMinutes env with
  | Some m => Qle_bool (inject_Z (1000 * 60 * m)) fileAge
  | None => false
  end.

(** [isAuthStateValid()].  The two numbers the check takes from the clock are
    its inputs: [now], the value of [Date.now() / 1000], and [fileAge], the
    value of [Date.now() - fs.statSync(authFile).mtimeMs]. *)
Definition isAuthStateValid (env : Env) (f : File) (now fileAge : Q) : bool :=
  match f with
  | None => false
  | Some Unparsable => false
  | Some (State None) => false
  | Some (State (Some [])) => false
  | Some (State (Some cookies)) =>
      if negb (Str.some (cookieValid now) cookies) then false
      else if tooOld env fileAge then false
      else true
  end.

(** How the log-in of the [try] block ends: the page reached and the state
    saved, or anything thrown on the way. *)
Inductive Login :=
| LoggedIn (cookies : list Cookie)
| LoginFailed.

(** What the set-up did. *)
Inductive Action :=
| Reused        (* the saved state is kept, no log-in *)
| Skipped       (* AUTH_DISABLED: the empty state is written *)
| Saved         (* logged in, the state is written *)
| FellBack.     (* the log-in failed, the empty state is written *)

(** The [setup('authenticate', ...)] body: what it did and the file it
    leaves.  The writes of [writeEmptyState] are taken to succeed. *)
Definition authenticate (env : Env) (f : File) (now fileAge : Q) (login : Login)
  : Action * File :=
  if isAuthStateValid env f now fileAge && negb (force env) then (Reused, f)
  else if disabled env then (Skipped, Some emptyState)
  else match login with
       | LoggedIn cookies => (Saved, Some (State (Some cookies)))
       | LoginFailed => (FellBack, Some emptyState)
       end.

End Auth.

(** * Properties *)

(** ** The tests on URLs and the base64 text, run *)

Example amazon_search_is_dynamic :
  Target.amazon "https://www.amazon.com/s?k=laptop&ref=Search" = true.
Proof. reflexivity. Qed.

Example wikipedia_query_is_dynamic :
  Target.wikipedia "https://en.wikipedia.org/w/api.php?action=query&format=json&titles=AI" = true.
Proof. reflexivity. Qed.

Example wikipedia_search_is_not_dynamic :
  Target.wikipedia "https://en.wikipedia.org/w/index.php?search=AI" = false.
Proof. reflexivity. Qed.

Example base64_Man : Base64.encode [Byte.x4d; Byte.x61; Byte.x6e] = "TWFu".
Proof. reflexivity. Qed.

Example base64_Ma : Base64.encode [Byte.x4d; Byte.x61] = "TWE=".
Proof. reflexivity. Qed.

Example base64_M_back : Base64.decode "TQ==" = [Byte.x4d].
Proof. reflexivity. Qed.

(** ** Base64 *)

Module Base64Facts.
Import Base64.











End Base64Facts.

(** ** Objects *)

Module ObjFacts.
Import Obj.

Lemma get_set_eq k v o : get k (set k v o) = Some v.
Proof.
  induction o as [|[k' v'] o IH]; cbn.
  - now rewrite String.eqb_refl.
  - destruct (String.eqb k k') eqn:E; cbn.
    + now rewrite String.eqb_refl.
    + now rewrite E.
Qed.

Lemma get_set_ne k k' v o : k <> k' -> get k' (set k v o) = get k' o.
Proof.
  intros Hne. induction o as [|[k1 v1] o IH]; cbn.
  - destruct (String.eqb_spec k' k); congruence.
  - destruct (String.eqb_spec k k1) as [->|]; cbn.
    + destruct (String.eqb_spec k' k1); congruence.
    + now rewrite IH.
Qed.

Lemma get_None_not_in k o : get k o = None <-> ~ In k (keys o).
Proof.
  unfold keys. induction o as [|[k' v'] o IH]; cbn.
  - tauto.
  - destruct (String.eqb_spec k k') as [->|Hne].
    + split; [discriminate | tauto].
    + rewrite IH. split; [intros H [?|?]; congruence + tauto | tauto].
Qed.

Lemma get_Some_in k v o : get k o = Some v -> In (k, v) o.
Proof.
  induction o as [|[k' v'] o IH]; cbn; [discriminate|].
  destruct (String.eqb_spec k k') as [->|Hne].
  - intros [= ->]. now left.
  - intros H. right. now apply IH.
Qed.

Lemma keys_set_present k v o : In k (keys o) -> keys (set k v o) = keys o.
Proof.
  unfold keys. induction o as [|[k' v'] o IH]; cbn; [tauto|].
  destruct (String.eqb_spec k k') as [->|Hne]; cbn; [reflexivity|].
  intros [?|H]; [congruence|]. now rewrite IH.
Qed.

Lemma keys_set_absent k v o : ~ In k (keys o) -> keys (set k v o) = (keys o ++ [k])%list.
Proof.
  unfold keys. induction o as [|[k' v'] o IH]; cbn; [reflexivity|].
  destruct (String.eqb_spec k k') as [->|Hne]; cbn; [tauto|].
  intros H. rewrite IH; tauto.
Qed.

Lemma length_set k v o : (length (set k v o) <= S (length o))%nat.
Proof.
  induction o as [|[k' v'] o IH]; cbn; [lia|].
  destruct (String.eqb k k'); cbn; lia.
Qed.

Lemma length_set_absent k v o : get k o = None -> length (set k v o) = S (length o).
Proof.
  induction o as [|[k' v'] o IH]; cbn; [reflexivity|].
  destruct (String.eqb k k'); cbn; [discriminate|]. intros H. now rewrite IH.
Qed.

Lemma set_nonempty k v o : set k v o <> [].
Proof. destruct o as [|[k' v'] o]; cbn; [|destruct (String.eqb k k')]; discriminate. Qed.

Lemma wf_set k v o : wf o -> wf (set k v o).
Proof.
  unfold wf. intros H.
  destruct (in_dec string_dec k (keys o)) as [Hin|Hnin].
  - now rewrite keys_set_present.
  - rewrite keys_set_absent by assumption.
    apply NoDup_app. split; [assumption|]. split; [|apply NoDup_singleton].
    intros x Hx Hk. apply list_elem_of_In in Hx, Hk.
    destruct Hk as [<-|[]]. contradiction.
Qed.

Lemma remove_filter k o :
  remove k o = List.filter (fun kv => negb (String.eqb k (fst kv))) o.
Proof. reflexivity. Qed.

Lemma in_remove kv k o : In kv (remove k o) <-> In kv o /\ fst kv <> k.
Proof.
  unfold remove. rewrite filter_In.
  destruct (String.eqb_spec k (fst kv)); cbn; intuition congruence.
Qed.

Lemma in_removeKeys kv ks o :
  In kv (removeKeys ks o) <-> In kv o /\ ~ In (fst kv) ks.
Proof.
  unfold removeKeys. revert o. induction ks as [|k ks IH]; intros o; cbn.
  - tauto.
  - rewrite IH, in_remove. intuition congruence.
Qed.

Lemma keys_remove_sub k o x : In x (keys (remove k o)) -> In x (keys o).
Proof.
  unfold keys. rewrite !in_map_iff. intros (kv & <- & H).
  exists kv. split; [reflexivity|]. now apply in_remove in H.
Qed.

Lemma wf_remove k o : wf o -> wf (remove k o).
Proof.
  unfold wf, remove, keys. induction o as [|[k' v'] o IH]; cbn; [trivial|].
  intros H. inversion H as [|? ? Hnin Hnd]; subst.
  destruct (String.eqb k k'); cbn; [now apply IH|].
  constructor; [|now apply IH].
  intros Hin. apply Hnin. apply list_elem_of_In. apply list_elem_of_In in Hin.
  now apply (keys_remove_sub k o).
Qed.

Lemma wf_removeKeys ks o : wf o -> wf (removeKeys ks o).
Proof.
  unfold removeKeys. revert o. induction ks as [|k ks IH]; intros o H; cbn; [assumption|].
  apply IH. now apply wf_remove.
Qed.

Lemma removeKeys_app ks1 ks2 o :
  removeKeys (ks1 ++ ks2) o = removeKeys ks2 (removeKeys ks1 o).
Proof. unfold removeKeys. apply fold_left_app. Qed.

Lemma length_remove k o : (length (remove k o) <= length o)%nat.
Proof. unfold remove. apply filter_length_le. Qed.

Lemma removeKeys_all ks o :
  (forall kv, In kv o -> In (fst kv) ks) -> removeKeys ks o = [].
Proof.
  intros Hall.
  destruct (removeKeys ks o) as [|kv l] eqn:E; [reflexivity|].
  assert (H : In kv (removeKeys ks o)) by (rewrite E; now left).
  apply in_removeKeys in H. destruct H as [Hin Hnin].
  exfalso. apply Hnin. now apply Hall.
Qed.

Lemma removeKeys_cons k ks o : removeKeys (k :: ks) o = removeKeys ks (remove k o).
Proof. reflexivity. Qed.

End ObjFacts.

(** ** Sorting by last access *)

Module SortFacts.
Import JsArray.

Lemma or_zero_id x : or_zero x = x.
Proof. unfold or_zero. destruct (Z.eqb_spec x 0); congruence. Qed.

Lemma compareFn_older a b : compareFn a b <= 0 <-> older a b.
Proof. unfold compareFn, older. rewrite !or_zero_id. lia. Qed.

Lemma place_perm x l : Permutation (place compareFn x l) (x :: l).
Proof.
  induction l as [|y l IH]; cbn; [reflexivity|].
  destruct (compareFn x y <=? 0); [reflexivity|].
  rewrite IH. apply perm_swap.
Qed.

Lemma sort_perm l : Permutation (sort compareFn l) l.
Proof.
  induction l as [|x l IH]; cbn; [reflexivity|].
  rewrite place_perm. now constructor.
Qed.

Lemma place_sorted x l :
  StronglySorted older l -> StronglySorted older (place compareFn x l).
Proof.
  induction 1 as [|y l Hl IH Hy]; cbn.
  - repeat constructor.
  - destruct (Z.leb_spec (compareFn x y) 0) as [Hle|Hgt].
    + apply compareFn_older in Hle.
      constructor; [now constructor|].
      constructor; [assumption|].
      eapply Forall_impl; [exact Hy|]. unfold older in *. cbn. intros; lia.
    + constructor; [assumption|].
      assert (Hyx : older y x).
      { unfold older. pose proof (proj2 (compareFn_older x y)) as H.
        unfold older in H. lia. }
      eapply Permutation_Forall; [symmetry; apply place_perm|].
      now constructor.
Qed.

Lemma sort_sorted l : StronglySorted older (sort compareFn l).
Proof.
  induction l as [|x l IH]; cbn; [constructor|]. now apply place_sorted.
Qed.

(** In a sorted list, what comes first is older than what comes after. *)
Lemma sorted_split_older l m a b :
  StronglySorted older l -> In a (firstn m l) -> In b (skipn m l) -> older a b.
Proof.
  intros Hs. revert m. induction Hs as [|x l Hl IH Hx]; intros m Ha Hb.
  - destruct m; contradiction.
  - destruct m as [|m]; cbn in *; [contradiction|].
    destruct Ha as [<-|Ha].
    + rewrite Forall_forall in Hx. apply Hx.
      apply list_elem_of_In in Hb.
      rewrite <- (firstn_skipn m l). apply elem_of_app. now right.
    + now apply (IH m).
Qed.

End SortFacts.

(** ** Eviction *)

Section EvictionFacts.

Variable cfg : Config.
Variable size : Obj.t -> N.

Local Abbreviation pressure := (stillNeedsEviction cfg size).
Local Abbreviation evict := (evictLRU cfg size).

(** The loop removes the keys of a prefix of [entries]: it goes on while a
    signal is active and ends at the first check that finds both clear, or
    with the list. *)
Lemma evictLoop_prefix entries c n :
  exists m : nat,
    (m <= length entries)%nat /\
    evictLoop cfg size entries c n
      = (Obj.removeKeys (Obj.keys (firstn m entries)) c, n + Z.of_nat m) /\
    (forall i : nat, (i < m)%nat ->
       pressure (Obj.removeKeys (Obj.keys (firstn i entries)) c) = true) /\
    (m = length entries \/
     pressure (Obj.removeKeys (Obj.keys (firstn m entries)) c) = false).
Proof.
  revert c n. induction entries as [|[k v] rest IH]; intros c n.
  - exists 0%nat. cbn. repeat split; [lia | f_equal; lia | intros; lia | now left].
  - cbn [evictLoop]. destruct (pressure c) eqn:E.
    + destruct (IH (Obj.remove k c) (n + 1)) as (m & Hm & Heq & Hbefore & Hend).
      exists (S m). cbn [firstn length Obj.keys map fst Obj.removeKeys fold_left].
      repeat split.
      * lia.
      * rewrite Heq. f_equal. lia.
      * intros [|i] Hi; [exact E|]. apply Hbefore. lia.
      * destruct Hend as [->|Hend]; [now left | now right].
    + exists 0%nat. cbn. repeat split; [lia | f_equal; lia | intros; lia | now right].
Qed.

Lemma pressure_split c :
  negb (needsEvictionByCount cfg c) && negb (needsEvictionBySize cfg size c)
  = negb (pressure c).
Proof. unfold stillNeedsEviction. now rewrite negb_orb. Qed.

(** What [evictLRU] does to the state. *)
Lemma evictLRU_spec st :
  let sorted := JsArray.sort compareFn (httpCache st) in
  exists m : nat,
    (m <= length (httpCache st))%nat /\
    httpCache (evict st) = Obj.removeKeys (Obj.keys (firstn m sorted)) (httpCache st) /\
    (forall i : nat, (i < m)%nat ->
       pressure (Obj.removeKeys (Obj.keys (firstn i sorted)) (httpCache st)) = true) /\
    (pressure (httpCache (evict st)) = false \/ httpCache (evict st) = []) /\
    (pressure (httpCache st) = true -> httpCache st <> [] -> (1 <= m)%nat) /\
    evictions (cacheStats (evict st)) = evictions (cacheStats st) + Z.of_nat m /\
    cacheDirty (evict st) = cacheDirty st || (0 <? Z.of_nat m).
Proof.
  intros sorted. unfold evictLRU. rewrite pressure_split.
  destruct (pressure (httpCache st)) eqn:E; cbn [negb].
  - fold sorted.
    destruct (evictLoop_prefix sorted (httpCache st) 0) as (m & Hm & Heq & Hbefore & Hend).
    rewrite Heq. exists m.
    assert (Hlen : length sorted = length (httpCache st))
      by apply Permutation_length, SortFacts.sort_perm.
    assert (Hres : httpCache
                     (if 0 <? 0 + Z.of_nat m
                      then set_cacheDirty true
                             (add_evictions (0 + Z.of_nat m)
                                (set_httpCache (Obj.removeKeys (Obj.keys (firstn m sorted)) (httpCache st)) st))
                      else set_httpCache (Obj.removeKeys (Obj.keys (firstn m sorted)) (httpCache st)) st)
                   = Obj.removeKeys (Obj.keys (firstn m sorted)) (httpCache st))
      by (destruct (0 <? 0 + Z.of_nat m); reflexivity).
    repeat split.
    + lia.
    + exact Hres.
    + exact Hbefore.
    + rewrite Hres. destruct Hend as [->|Hend]; [right | now left].
      rewrite firstn_all. apply ObjFacts.removeKeys_all.
      intros kv Hin. unfold Obj.keys. apply in_map.
      eapply Permutation_in; [symmetry; apply SortFacts.sort_perm | exact Hin].
    + intros _ Hne. destruct m as [|m]; [|lia].
      exfalso. destruct Hend as [Hend|Hend].
      * assert (Hz : length (httpCache st) = 0%nat) by lia.
        apply length_zero_iff_nil in Hz. congruence.
      * change (pressure (httpCache st) = false) in Hend. congruence.
    + destruct (Z.ltb_spec 0 (0 + Z.of_nat m)); cbn; [lia|].
      assert (m = 0%nat) by lia. subst. lia.
    + destruct (Z.ltb_spec 0 (0 + Z.of_nat m)) as [H|H]; cbn.
      * destruct (Z.ltb_spec 0 (Z.of_nat m)); [now rewrite orb_true_r | lia].
      * destruct (Z.ltb_spec 0 (Z.of_nat m)); [lia | now rewrite orb_false_r].
  - exists 0%nat. cbn. repeat split; try lia.
    + now left.
    + now rewrite orb_false_r.
Qed.

(** Eviction touches the cache, [evictions] and the dirty flag only. *)
Lemma evictLRU_frame st :
  hits (cacheStats (evict st)) = hits (cacheStats st) /\
  misses (cacheStats (evict st)) = misses (cacheStats st) /\
  writes (cacheStats (evict st)) = writes (cacheStats st) /\
  dedupStats (evict st) = dedupStats st /\
  domainBlockStats (evict st) = domainBlockStats st /\
  pendingRequests (evict st) = pendingRequests st /\
  promises (evict st) = promises st /\
  fetched (evict st) = fetched st /\
  handled (evict st) = handled st.
Proof.
  unfold evictLRU.
  destruct (negb _ && negb _); [repeat split|].
  destruct (evictLoop _ _ _ _ _) as [c n].
  destruct (0 <? n); repeat split.
Qed.

Lemma evictLRU_wf st : Obj.wf (httpCache st) -> Obj.wf (httpCache (evict st)).
Proof.
  intros H. destruct (evictLRU_spec st) as (m & _ & -> & _).
  now apply ObjFacts.wf_removeKeys.
Qed.

End EvictionFacts.

(** ** Claims on eviction *)

Lemma evicted_and_kept (c sorted : Obj.t) (m : nat) :
  Obj.wf c -> Permutation sorted c ->
  forall kv, In kv (Obj.removeKeys (Obj.keys (firstn m sorted)) c) <-> In kv (skipn m sorted).
Proof.
  intros Hwf Hperm kv. rewrite ObjFacts.in_removeKeys. split.
  - intros [Hin Hnot].
    assert (Hs : In kv sorted) by (eapply Permutation_in; [symmetry|]; eassumption).
    rewrite <- (firstn_skipn m sorted) in Hs. apply in_app_or in Hs.
    destruct Hs as [Hs|Hs]; [|assumption].
    exfalso. apply Hnot. unfold Obj.keys. now apply in_map.
  - intros Hin. split.
    + eapply Permutation_in; [exact Hperm|].
      rewrite <- (firstn_skipn m sorted). apply in_or_app. now right.
    + assert (Hnd : NoDup (Obj.keys sorted)).
      { unfold Obj.wf, Obj.keys in *.
        assert (Hk : Permutation (map fst sorted) (map fst c))
          by now apply Permutation_map.
        now rewrite Hk. }
      unfold Obj.keys in *.
      rewrite <- (firstn_skipn m sorted), map_app in Hnd.
      apply NoDup_app in Hnd. destruct Hnd as (_ & Hdisj & _).
      intros Hk. apply (Hdisj (fst kv)).
      * now apply list_elem_of_In.
      * apply list_elem_of_In. now apply in_map.
Qed.

(** C6.  When [evictLRU] runs with a pressure signal active, the entries it
    removes are the first [m] of the store sorted by ascending [lastAccess]:
    every removed entry is at least as old as every entry kept.  Both signals
    are evaluated anew before each removal, each removal follows an
    evaluation that found one active, and the loop ends only with both clear
    or with the store empty; a non-empty store loses at least one entry.
    With access times 10, 20, 30 and room for three entries, exactly the
    entry of time 10 goes. *)
Theorem evictLRU_oldest_first (cfg : Config) (size : Obj.t -> N) (st : State) :
  Obj.wf (httpCache st) ->
  stillNeedsEviction cfg size (httpCache st) = true ->
  let sorted := JsArray.sort compareFn (httpCache st) in
  let st' := evictLRU cfg size st in
  (StronglySorted older sorted /\ Permutation sorted (httpCache st)) /\
  (exists m : nat,
     httpCache st' = Obj.removeKeys (Obj.keys (firstn m sorted)) (httpCache st) /\
     (forall kv, In kv (httpCache st') <-> In kv (skipn m sorted)) /\
     (forall r s, In r (firstn m sorted) -> In s (httpCache st') -> older r s) /\
     (forall i : nat, (i < m)%nat ->
        stillNeedsEviction cfg size
          (Obj.removeKeys (Obj.keys (firstn i sorted)) (httpCache st)) = true) /\
     (stillNeedsEviction cfg size (httpCache st') = false \/ httpCache st' = []) /\
     (httpCache st <> [] -> (1 <= m)%nat) /\
     evictions (cacheStats st') = evictions (cacheStats st) + Z.of_nat m) /\
  httpCache
    (evictLRU Sample.three_entries Json.byteLength
       (Sample.with_cache
          [ ("https://www.amazon.com/b", Sample.entry_at 20);
            ("https://www.amazon.com/a", Sample.entry_at 10);
            ("https://www.amazon.com/c", Sample.entry_at 30) ]))
  = [ ("https://www.amazon.com/b", Sample.entry_at 20);
      ("https://www.amazon.com/c", Sample.entry_at 30) ].
Proof.
  intros Hwf Hp sorted st'.
  assert (Hperm : Permutation sorted (httpCache st)) by apply SortFacts.sort_perm.
  assert (Hsorted : StronglySorted older sorted) by apply SortFacts.sort_sorted.
  split; [now split|]. split; [|vm_compute; reflexivity].
  destruct (evictLRU_spec cfg size st) as (m & Hm & Heq & Hbefore & Hend & Hone & Hev & _).
  fold sorted in Heq, Hbefore. fold st' in Heq, Hend, Hev.
  exists m. split; [exact Heq|].
  assert (Hkept : forall kv, In kv (httpCache st') <-> In kv (skipn m sorted)).
  { intros kv. rewrite Heq. now apply evicted_and_kept. }
  split; [exact Hkept|]. split.
  - intros r s Hr Hs. apply Hkept in Hs.
    now apply (SortFacts.sorted_split_older sorted m).
  - repeat split; auto.
Qed.

(** The hypotheses of C6 hold of a full store of three entries. *)
Lemma evictLRU_oldest_first_witness :
  let st := Sample.with_cache
              [ ("https://www.amazon.com/b", Sample.entry_at 20);
                ("https://www.amazon.com/a", Sample.entry_at 10);
                ("https://www.amazon.com/c", Sample.entry_at 30) ] in
  exists m : nat,
    httpCache (evictLRU Sample.three_entries Json.byteLength st)
    = Obj.removeKeys
        (Obj.keys (firstn m (JsArray.sort compareFn (httpCache st)))) (httpCache st).
Proof.
  intros st.
  assert (Hwf : Obj.wf (httpCache st)).
  { unfold Obj.wf. apply (bool_decide_unpack _). vm_compute. exact I. }
  assert (Hp : stillNeedsEviction Sample.three_entries Json.byteLength (httpCache st) = true)
    by (vm_compute; reflexivity).
  destruct (evictLRU_oldest_first Sample.three_entries Json.byteLength st Hwf Hp)
    as (_ & (m & Heq & _) & _).
  exists m. exact Heq.
Defined.

(** ** Disposals leave the layer's state alone *)

Lemma disposeAll_handled routes d st :
  disposeAll routes d st
  = set_handled (handled st ++ map (fun route => (route, d)) routes)%list st.
Proof.
  unfold disposeAll. revert st. induction routes as [|r routes IH]; intros st; cbn.
  - rewrite app_nil_r. now destruct st.
  - rewrite IH. unfold dispose, set_handled. cbn. now rewrite <- app_assoc.
Qed.

Lemma httpCache_disposeAll routes d st : httpCache (disposeAll routes d st) = httpCache st.
Proof. now rewrite disposeAll_handled. Qed.

(** ** The count ceiling after a cache write *)

Section PutFacts.

Variable cfg : Config.
Variable size : Obj.t -> N.

Lemma httpCache_put key r now st :
  httpCache (put cfg size key r now st)
  = Obj.set key
      {| Entry.status := Result.status r; Entry.headers := Result.headers r;
         Entry.body := Base64.encode (Result.body r); Entry.lastAccess := now |}
      (httpCache (evictLRU cfg size st)).
Proof. reflexivity. Qed.

Lemma put_count key r now st :
  (forall n, MAX_CACHE_ENTRIES cfg = Some n -> 1 <= n) ->
  aboveCount cfg (httpCache (put cfg size key r now st)) = false.
Proof.
  intros Hroom. rewrite httpCache_put. unfold aboveCount.
  destruct (MAX_CACHE_ENTRIES cfg) as [n|] eqn:En; [|reflexivity].
  specialize (Hroom n eq_refl).
  destruct (evictLRU_spec cfg size st) as (_ & _ & _ & _ & Hend & _).
  apply Z.ltb_ge.
  destruct Hend as [Hclear|Hempty].
  - unfold stillNeedsEviction, needsEvictionByCount, ge_count in Hclear.
    rewrite En in Hclear. apply orb_false_elim in Hclear. destruct Hclear as [Hc _].
    apply Z.leb_gt in Hc.
    pose proof (ObjFacts.length_set key
                  {| Entry.status := Result.status r; Entry.headers := Result.headers r;
                     Entry.body := Base64.encode (Result.body r); Entry.lastAccess := now |}
                  (httpCache (evictLRU cfg size st))).
    lia.
  - rewrite Hempty. cbn. lia.
Qed.

Lemma put_not_above_both key r now st :
  (forall n, MAX_CACHE_ENTRIES cfg = Some n -> 1 <= n) ->
  aboveBoth cfg size (httpCache (put cfg size key r now st)) = false.
Proof. intros H. unfold aboveBoth. now rewrite put_count. Qed.

Lemma putAll_snoc ps p st :
  putAll cfg size (ps ++ [p]) st
  = put cfg size (fst (fst p)) (snd (fst p)) (snd p) (putAll cfg size ps st).
Proof. unfold putAll. now rewrite fold_left_app. Qed.

End PutFacts.

(** C7 (amended).  With room for at least one entry ([MAX_CACHE_ENTRIES] at
    least 1, or not a number), the store is not above the count ceiling once a
    cache write completes, whatever the state it started from; so it is never
    above both ceilings, after each write of any sequence of writes, and after
    the owner's fetch ends with a response of status in [200, 400). *)
Theorem put_never_above_both (cfg : Config) (size : Obj.t -> N) :
  (forall n, MAX_CACHE_ENTRIES cfg = Some n -> 1 <= n) ->
  (forall key r now st,
     aboveCount cfg (httpCache (put cfg size key r now st)) = false /\
     aboveBoth cfg size (httpCache (put cfg size key r now st)) = false) /\
  (forall ps p st,
     aboveBoth cfg size (httpCache (putAll cfg size (ps ++ [p]) st)) = false) /\
  (forall pid p waiters r now st,
     promises st !! pid = Some p -> p_state p = Pending waiters ->
     200 <= Result.status r < 400 ->
     aboveBoth cfg size (httpCache (settle cfg size pid (Responds r) now st)) = false).
Proof.
  intros Hroom. repeat split.
  - now apply put_count.
  - now apply put_not_above_both.
  - intros ps p st. rewrite putAll_snoc. now apply put_not_above_both.
  - intros pid p waiters r now st Hp Hs [Hlo Hhi].
    unfold settle. rewrite Hp, Hs.
    apply Z.leb_le in Hlo. apply Z.ltb_lt in Hhi. rewrite Hlo, Hhi. cbn [andb].
    rewrite httpCache_disposeAll. cbn.
    change (aboveBoth cfg size (httpCache (put cfg size (p_key p) r now st)) = false).
    now apply put_not_above_both.
Qed.

Lemma put_never_above_both_witness :
  aboveBoth default_config Json.byteLength
    (httpCache (put default_config Json.byteLength "https://www.amazon.com/" Sample.ok_html 1 initial))
  = false.
Proof.
  apply (put_never_above_both default_config Json.byteLength).
  intros n [= <-]. lia.
Defined.

(** C7, as stated, fails when the count ceiling is zero: the one entry just
    written exceeds it, and its size exceeds a size ceiling of zero. *)
Lemma put_above_both_without_room :
  aboveBoth Sample.no_room Json.byteLength
    (httpCache (run Sample.no_room Target.amazon Json.byteLength (Sample.visits 1) initial))
  = true.
Proof. vm_compute. reflexivity. Qed.

(** ** The branches of the handler *)

Section HandlerFacts.

Variable cfg : Config.
Variable isDynamic : string -> bool.

Local Abbreviation handle := (handler cfg isDynamic).

Lemma isBlocked_false req :
  isBlocked cfg req = false ->
  isBlockedType req = false /\
  DOMAIN_BLOCKING_ENABLED cfg && isBlockedDomain (url req) = false.
Proof. unfold isBlocked. intros H. now apply orb_false_elim in H. Qed.

Lemma handler_blocked_type route req now st :
  isBlockedType req = true -> handle route req now st = dispose route Aborted st.
Proof. intros H. unfold handler. now rewrite H. Qed.

Lemma handler_blocked_domain route req now st :
  isBlockedType req = false ->
  DOMAIN_BLOCKING_ENABLED cfg && isBlockedDomain (url req) = true ->
  handle route req now st = dispose route Aborted (incr_blocked st).
Proof. intros H1 H2. unfold handler. now rewrite H1, H2. Qed.

Lemma handler_pass_through route req now st :
  isBlocked cfg req = false -> cacheable cfg isDynamic req = false ->
  handle route req now st = dispose route Continued st.
Proof.
  intros Hb Hc. apply isBlocked_false in Hb. destruct Hb as [H1 H2].
  unfold handler. now rewrite H1, H2, Hc.
Qed.

Lemma handler_hit route req now st cached :
  isBlocked cfg req = false -> cacheable cfg isDynamic req = true ->
  Obj.get (url req) (httpCache st) = Some cached ->
  handle route req now st = serveCached route (url req) cached now st.
Proof.
  intros Hb Hc Hg. apply isBlocked_false in Hb. destruct Hb as [H1 H2].
  unfold handler. now rewrite H1, H2, Hc, Hg.
Qed.

Lemma handler_join route req now st pid :
  isBlocked cfg req = false -> cacheable cfg isDynamic req = true ->
  Obj.get (url req) (httpCache st) = None ->
  DEDUP_ENABLED cfg = true ->
  pendingRequests st !! url req = Some pid ->
  handle route req now st = joinPending route (url req) (incr_duplicates st).
Proof.
  intros Hb Hc Hg Hd Hp. apply isBlocked_false in Hb. destruct Hb as [H1 H2].
  unfold handler. rewrite H1, H2, Hc, Hg, Hd, Hp. cbn [andb].
  now rewrite bool_decide_eq_true_2 by eauto.
Qed.

Lemma handler_start route req now st :
  isBlocked cfg req = false -> cacheable cfg isDynamic req = true ->
  Obj.get (url req) (httpCache st) = None ->
  DEDUP_ENABLED cfg = false \/ pendingRequests st !! url req = None ->
  handle route req now st = startFetch route (url req) st.
Proof.
  intros Hb Hc Hg Hd. apply isBlocked_false in Hb. destruct Hb as [H1 H2].
  unfold handler. rewrite H1, H2, Hc, Hg.
  destruct Hd as [->| ->]; [reflexivity|].
  rewrite bool_decide_eq_false_2 by (intros [? ?]; discriminate).
  now rewrite andb_false_r.
Qed.

Lemma cacheable_false_of_sensitive req :
  isAuthLike (url req) = true \/ isDynamic (url req) = true ->
  cacheable cfg isDynamic req = false.
Proof.
  unfold cacheable. intros [-> | ->]; cbn; now rewrite ?andb_false_r.
Qed.

End HandlerFacts.

(** ** Claims on classification *)

Lemma handler_blocked (cfg : Config) (isDynamic : string -> bool)
    (route : nat) (req : Request) (now : Z) (st : State) :
  isBlocked cfg req = true ->
  let st' := handler cfg isDynamic route req now st in
  handled st' = (handled st ++ [(route, Aborted)])%list /\
  fetched st' = fetched st /\
  httpCache st' = httpCache st /\
  cacheStats st' = cacheStats st /\
  cacheDirty st' = cacheDirty st /\
  dedupStats st' = dedupStats st /\
  pendingRequests st' = pendingRequests st /\
  promises st' = promises st /\
  blocked (domainBlockStats st')
  = blocked (domainBlockStats st) + (if isBlockedType req then 0 else 1).
Proof.
  intros Hb st'. subst st'. unfold isBlocked in Hb.
  destruct (isBlockedType req) eqn:Ht.
  - rewrite handler_blocked_type by assumption. cbn. repeat split. lia.
  - cbn in Hb. rewrite handler_blocked_domain by assumption. cbn. repeat split.
Qed.

(** C5 (amended).  A request blocked by its resource type, or (domain
    blocking enabled) by a blocked-domain substring of its URL, is aborted
    and nothing else happens: no upstream fetch, no access to the cache, the
    registry or the other counters.  [blocked] counts the domain blocks only:
    it grows by one when the request is aborted by the domain rule, and stays
    as it is when the request is aborted for its resource type. *)
Theorem blocked_request_aborted (cfg : Config) (isDynamic : string -> bool)
    (route : nat) (req : Request) (now : Z) (st : State) :
  isBlocked cfg req = true ->
  let st' := handler cfg isDynamic route req now st in
  handled st' = (handled st ++ [(route, Aborted)])%list /\
  fetched st' = fetched st /\
  httpCache st' = httpCache st /\
  cacheStats st' = cacheStats st /\
  cacheDirty st' = cacheDirty st /\
  dedupStats st' = dedupStats st /\
  pendingRequests st' = pendingRequests st /\
  promises st' = promises st /\
  blocked (domainBlockStats st')
  = blocked (domainBlockStats st) + (if isBlockedType req then 0 else 1).
Proof.
  intros Hb st'. subst st'. unfold isBlocked in Hb.
  destruct (isBlockedType req) eqn:Ht.
  - (* aborted for its resource type, before the domain test *)
    rewrite handler_blocked_type by assumption.
    unfold dispose. cbn. repeat split. lia.
  - (* aborted by the domain rule, after [blocked++] *)
    cbn [orb] in Hb. rewrite handler_blocked_domain by assumption.
    unfold dispose, incr_blocked. cbn. repeat split.
Qed.

Lemma blocked_request_aborted_witness :
  blocked (domainBlockStats
             (handler default_config Target.amazon 7
                (Sample.page "https://www.google-analytics.com/collect") 1 initial))
  = 1.
Proof.
  apply (blocked_request_aborted default_config Target.amazon 7
           (Sample.page "https://www.google-analytics.com/collect") 1 initial).
  vm_compute. reflexivity.
Defined.

(** C5, as stated, fails for a request blocked by its resource type: it is
    aborted, and [blocked] does not move. *)
Lemma blocked_not_counted_for_resource_type :
  let req := Sample.picture "https://www.amazon.com/images/logo.png" in
  let st' := handler default_config Target.amazon 7 req 1 initial in
  isBlockedType req = true /\
  handled st' = [(7%nat, Aborted)] /\
  blocked (domainBlockStats st') <> blocked (domainBlockStats initial) + 1.
Proof. vm_compute. repeat split. discriminate. Qed.

(** C8 (amended).  A request whose URL passes the handler's [isAuthLike] test
    or the scenario's [isDynamic] test is never answered from the cache,
    whatever the cache holds: the cache, its counters and the registry are
    left as they are and no fetch is issued by the layer.  If the request is
    blocked it is aborted; otherwise it is forwarded unmodified. *)
Theorem sensitive_never_from_cache (cfg : Config) (isDynamic : string -> bool)
    (route : nat) (req : Request) (now : Z) (st : State) :
  isAuthLike (url req) = true \/ isDynamic (url req) = true ->
  let st' := handler cfg isDynamic route req now st in
  handled st'
  = (handled st ++ [(route, if isBlocked cfg req then Aborted else Continued)])%list /\
  httpCache st' = httpCache st /\
  cacheStats st' = cacheStats st /\
  cacheDirty st' = cacheDirty st /\
  dedupStats st' = dedupStats st /\
  pendingRequests st' = pendingRequests st /\
  promises st' = promises st /\
  fetched st' = fetched st.
Proof.
  intros Hs st'. subst st'.
  destruct (isBlocked cfg req) eqn:Hb.
  - destruct (handler_blocked cfg isDynamic route req now st Hb)
      as (? & ? & ? & ? & ? & ? & ? & ? & _).
    repeat split; assumption.
  - rewrite handler_pass_through
      by (try assumption; now apply cacheable_false_of_sensitive).
    cbn. repeat split.
Qed.

Lemma sensitive_never_from_cache_witness :
  let u := "https://www.amazon.com/ap/signin?openid=1" in
  handled
    (handler default_config Target.amazon 7 (Sample.page u) 5
       (Sample.with_cache [(u, Sample.entry_at 1)]))
  = [(7%nat, Continued)].
Proof.
  intros u.
  apply (sensitive_never_from_cache default_config Target.amazon 7
           (Sample.page u) 5 (Sample.with_cache [(u, Sample.entry_at 1)])).
  left. vm_compute. reflexivity.
Defined.

(** C8, as stated, fails for a blocked request: the login image below is
    stored, its URL matches the authentication pattern, and it is aborted, so
    that no pass-through call occurs. *)
Lemma sensitive_blocked_not_passed_through :
  let u := "https://www.amazon.com/login/banner.png" in
  let st := Sample.with_cache [(u, Sample.entry_at 1)] in
  let st' := handler default_config Target.amazon 7 (Sample.picture u) 5 st in
  isAuthLike u = true /\
  Obj.get u (httpCache st) = Some (Sample.entry_at 1) /\
  handled st' = [(7%nat, Aborted)] /\
  ~ In (7%nat, Continued) (handled st').
Proof.
  vm_compute. repeat split. intros [H|[]]. discriminate.
Qed.

(** The volatility test of the Amazon scenario asks for [/api/] with both
    slashes: a path that merely contains the letters is cacheable, and a
    stored response for it is served. *)
Example api_letters_are_cacheable :
  let u := "https://www.amazon.com/gp/rapid-delivery" in
  Str.test_i "api" u = true /\
  Target.amazon u = false /\
  handled
    (handler default_config Target.amazon 7 (Sample.page u) 5
       (Sample.with_cache [(u, Sample.entry_at 1)]))
  = [(7%nat, Fulfilled {| Result.status := 200; Result.headers := [];
                          Result.body := [Byte.x68; Byte.x69] |})].
Proof. vm_compute. repeat split. Qed.

(** ** Cache hits *)

Lemma get_set_is_Some k k' v o :
  In k' (Obj.keys o) ->
  (Obj.get k (Obj.set k' v o) = None <-> Obj.get k o = None).
Proof.
  intros Hin. rewrite !ObjFacts.get_None_not_in.
  now rewrite ObjFacts.keys_set_present.
Qed.

Lemma get_Some_key k v o : Obj.get k o = Some v -> In k (Obj.keys o).
Proof.
  intros H. destruct (in_dec string_dec k (Obj.keys o)) as [Hin|Hnin]; [assumption|].
  apply ObjFacts.get_None_not_in in Hnin. congruence.
Qed.

Lemma contents_set_touch k e now o :
  Obj.get k o = Some e ->
  Obj.contents (Obj.set k (Entry.touch now e) o) = Obj.contents o.
Proof.
  unfold Obj.contents. induction o as [|[k' v'] o IH]; cbn; [discriminate|].
  destruct (String.eqb_spec k k') as [->|Hne]; cbn.
  - now intros [= ->].
  - intros H. now rewrite IH.
Qed.


Section HitFacts.

Variable cfg : Config.
Variable isDynamic : string -> bool.
Variable size : Obj.t -> N.

(** A run of cache hits changes access times and [hits], nothing else. *)
Lemma run_hits evs : forall st,
  Forall (fun ev => isHit cfg isDynamic (httpCache st) ev = true) evs ->
  let st' := run cfg isDynamic size evs st in
  Obj.contents (httpCache st') = Obj.contents (httpCache st) /\
  cacheDirty st' = cacheDirty st /\
  hits (cacheStats st') = hits (cacheStats st) + Z.of_nat (length evs) /\
  misses (cacheStats st') = misses (cacheStats st) /\
  writes (cacheStats st') = writes (cacheStats st) /\
  evictions (cacheStats st') = evictions (cacheStats st) /\
  dedupStats st' = dedupStats st /\
  domainBlockStats st' = domainBlockStats st /\
  pendingRequests st' = pendingRequests st /\
  fetched st' = fetched st.
Proof.
  induction evs as [|ev evs IH]; intros st Hall.
  - cbn. repeat split. lia.
  - apply Forall_cons in Hall. destruct Hall as [Hev Hall].
    destruct ev as [route req now|pid o now]; [|discriminate].
    cbn in Hev. apply andb_prop in Hev. destruct Hev as [Hev Hg].
    apply andb_prop in Hev. destruct Hev as [Hb Hc].
    apply negb_true_iff in Hb.
    destruct (Obj.get (url req) (httpCache st)) as [cached|] eqn:Eg; [|discriminate].
    cbn [run fold_left step].
    rewrite (handler_hit cfg isDynamic route req now st cached) by assumption.
    set (st1 := serveCached route (url req) cached now st).
    assert (Hkeys : forall k, Obj.get k (httpCache st1) = None <-> Obj.get k (httpCache st) = None).
    { intros k. subst st1. cbn. apply get_set_is_Some. now apply get_Some_key in Eg. }
    assert (Hall1 : Forall (fun ev => isHit cfg isDynamic (httpCache st1) ev = true) evs).
    { eapply Forall_impl; [exact Hall|]. intros [r q n|? ? ?]; [|now intros].
      unfold isHit. intros Hq. apply andb_prop in Hq. destruct Hq as [Hq1 Hq2].
      rewrite Hq1. cbn [andb].
      destruct (Obj.get (url q) (httpCache st1)) eqn:E2; [reflexivity|].
      apply Hkeys in E2. rewrite E2 in Hq2. discriminate. }
    specialize (IH st1 Hall1). cbn zeta in IH.
    destruct IH as (H1 & H2 & H3 & H4 & H5 & H6 & H7 & H8 & H9 & H10).
    change (fold_left (step cfg isDynamic size) evs st1) with (run cfg isDynamic size evs st1).
    repeat split; try (rewrite ?H1, ?H2, ?H3, ?H4, ?H5, ?H6, ?H7, ?H8, ?H9, ?H10; subst st1; cbn; reflexivity).
    + rewrite H1. subst st1. cbn. now apply contents_set_touch.
    + rewrite H3. subst st1. cbn [length]. cbn. lia.
Qed.

End HitFacts.

(** C10.  A request answered from the cache changes one thing in the store,
    the [lastAccess] of the entry it hits, and adds one to [hits]: the other
    entries and the order of the keys, the other counters, the dirty flag, the
    registry and the log of upstream fetches stay as they are.  A store that
    is clean stays clean through any run of hits, so that the flush at the end
    writes nothing and the new access times never reach the snapshot. *)
Theorem cache_hit_frame (cfg : Config) (isDynamic : string -> bool) (size : Obj.t -> N)
    (route : nat) (req : Request) (now : Z) (st : State) (cached : Entry.t) :
  isBlocked cfg req = false ->
  cacheable cfg isDynamic req = true ->
  Obj.get (url req) (httpCache st) = Some cached ->
  let st' := handler cfg isDynamic route req now st in
  (httpCache st' = Obj.set (url req) (Entry.touch now cached) (httpCache st) /\
   Obj.get (url req) (httpCache st') = Some (Entry.touch now cached) /\
   Entry.content (Entry.touch now cached) = Entry.content cached /\
   (forall k, k <> url req -> Obj.get k (httpCache st') = Obj.get k (httpCache st)) /\
   Obj.keys (httpCache st') = Obj.keys (httpCache st)) /\
  (hits (cacheStats st') = hits (cacheStats st) + 1 /\
   misses (cacheStats st') = misses (cacheStats st) /\
   writes (cacheStats st') = writes (cacheStats st) /\
   evictions (cacheStats st') = evictions (cacheStats st) /\
   dedupStats st' = dedupStats st /\
   domainBlockStats st' = domainBlockStats st) /\
  (cacheDirty st' = cacheDirty st /\
   pendingRequests st' = pendingRequests st /\
   promises st' = promises st /\
   fetched st' = fetched st) /\
  (forall evs ok f,
     Forall (fun ev => isHit cfg isDynamic (httpCache st) ev = true) evs ->
     cacheDirty st = false ->
     let st'' := run cfg isDynamic size evs st in
     Obj.contents (httpCache st'') = Obj.contents (httpCache st) /\
     writeCacheToDisk cfg ok st'' f = (st'', f)).
Proof.
  intros Hb Hc Hg st'. subst st'.
  rewrite (handler_hit cfg isDynamic route req now st cached) by assumption.
  split; [|split; [|split]].
  - cbn. repeat split.
    + apply ObjFacts.get_set_eq.
    + intros k Hk. apply ObjFacts.get_set_ne. congruence.
    + apply ObjFacts.keys_set_present. now apply get_Some_key in Hg.
  - cbn. repeat split.
  - cbn. repeat split.
  - intros evs ok f Hhits Hclean st''.
    destruct (run_hits cfg isDynamic size evs st Hhits) as (Hcont & Hdirty & _).
    fold st'' in Hcont, Hdirty. split; [exact Hcont|].
    unfold writeCacheToDisk. now rewrite Hdirty, Hclean.
Qed.

Lemma cache_hit_frame_witness :
  let u := "https://www.amazon.com/gp/bestsellers" in
  let st := Sample.with_cache [(u, Sample.entry_at 1)] in
  cacheDirty (handler default_config Target.amazon 7 (Sample.page u) 5 st) = cacheDirty st.
Proof.
  intros u st.
  apply (cache_hit_frame default_config Target.amazon Json.byteLength 7 (Sample.page u) 5 st
           (Sample.entry_at 1)); vm_compute; reflexivity.
Defined.

(** ** The registry *)

Section RegistryFacts.

Variable cfg : Config.
Variable isDynamic : string -> bool.
Variable size : Obj.t -> N.

Local Abbreviation handle := (handler cfg isDynamic).
Local Abbreviation exec := (run cfg isDynamic size).

Lemma run_app evs1 evs2 st : exec (evs1 ++ evs2) st = exec evs2 (exec evs1 st).
Proof. unfold run. apply fold_left_app. Qed.

Lemma run_cons ev evs st : exec (ev :: evs) st = exec evs (step cfg isDynamic size st ev).
Proof. reflexivity. Qed.


(** What the end of the owner's fetch with a response does. *)
Lemma settle_responds pid key waiters r now st :
  promises st !! pid = Some {| p_key := key; p_state := Pending waiters |} ->
  let written := (200 <=? Result.status r) && (Result.status r <? 400) in
  let st0 := if written then put cfg size key r now st else st in
  let st' := settle cfg size pid (Responds r) now st in
  httpCache st' = httpCache st0 /\
  cacheStats st' = cacheStats st0 /\
  cacheDirty st' = cacheDirty st0 /\
  dedupStats st' = dedupStats st /\
  domainBlockStats st' = domainBlockStats st /\
  pendingRequests st' = delete key (pendingRequests st) /\
  promises st' = <[pid := {| p_key := key; p_state := Settled (Some r) |}]> (promises st) /\
  fetched st' = fetched st /\
  handled st'
  = (handled st ++ (pid, Fulfilled r) :: map (fun w => (w, Fulfilled r)) waiters)%list.
Proof.
  intros Hp written st0 st'. subst st' st0 written. unfold settle. rewrite Hp. cbn [p_state p_key].
  rewrite disposeAll_handled.
  destruct ((200 <=? Result.status r) && (Result.status r <? 400)).
  - pose proof (evictLRU_frame cfg size st) as (_ & _ & _ & F4 & F5 & F6 & F7 & F8 & F9).
    cbn. rewrite F4, F5, F6, F7, F8, F9, <- app_assoc. repeat split.
  - cbn. rewrite <- app_assoc. repeat split.
Qed.




End RegistryFacts.

Lemma registered_initial : registered initial.
Proof. intros pid p ws H. cbn in H. rewrite lookup_empty in H. discriminate. Qed.

(** ** Claims on deduplication *)




(** ** Claims on the cache-hit path *)

Lemma joinPending_frame route key st :
  let st' := joinPending route key st in
  httpCache st' = httpCache st /\ cacheStats st' = cacheStats st /\
  dedupStats st' = dedupStats st /\ fetched st' = fetched st /\
  pendingRequests st' = pendingRequests st /\ cacheDirty st' = cacheDirty st.
Proof.
  unfold joinPending.
  destruct (pendingRequests st !! key) as [pid|]; [|repeat split].
  destruct (promises st !! pid) as [p|]; [|repeat split].
  destruct (p_state p); repeat split.
Qed.

(** Requests leave the cached responses as they are: a hit moves an access
    time, nothing else of the store. *)
Lemma handler_contents (cfg : Config) (isDynamic : string -> bool) route req now st :
  Obj.contents (httpCache (handler cfg isDynamic route req now st))
  = Obj.contents (httpCache st).
Proof.
  unfold handler.
  destruct (isBlockedType req); [reflexivity|].
  destruct (DOMAIN_BLOCKING_ENABLED cfg && isBlockedDomain (url req)); [reflexivity|].
  destruct (cacheable cfg isDynamic req); [|reflexivity].
  destruct (Obj.get (url req) (httpCache st)) as [cached|] eqn:Hg.
  - cbn. now apply contents_set_touch.
  - destruct (DEDUP_ENABLED cfg && bool_decide (is_Some (pendingRequests st !! url req))).
    + now destruct (joinPending_frame route (url req) (incr_duplicates st)) as (-> & _).
    + reflexivity.
Qed.

Lemma run_intercepts_contents (cfg : Config) (isDynamic : string -> bool)
    (size : Obj.t -> N) (evs : list Event) : forall st,
  Forall (fun ev => isIntercept ev = true) evs ->
  Obj.contents (httpCache (run cfg isDynamic size evs st)) = Obj.contents (httpCache st).
Proof.
  induction evs as [|ev evs IH]; intros st Hall; [reflexivity|].
  apply Forall_cons in Hall. destruct Hall as [Hev Hall].
  destruct ev as [route req now|? ? ?]; [|discriminate].
  cbn [run fold_left step].
  change (fold_left (step cfg isDynamic size) evs ?s) with (run cfg isDynamic size evs s).
  rewrite IH by assumption. apply handler_contents.
Qed.




(** The entry does not outlive a cache write that evicts it: with room for
    two entries, a page fetched and stored, then two other pages fetched and
    stored, is fetched again when it is requested next. *)
Example evicted_page_fetched_again :
  let st := run Scenario.two_entries Target.amazon Json.byteLength
              (Sample.visits 3 ++ [Intercept 9 (Sample.page (Sample.nth_url 0)) 100])
              initial in
  length (fetched st) = 4%nat /\
  hits (cacheStats st) = 0 /\
  In (9%nat, Sample.nth_url 0) (fetched st).
Proof. vm_compute. repeat split. tauto. Qed.


(** ** The ways a fetch can fail *)

Section FailureFacts.

Variable cfg : Config.
Variable isDynamic : string -> bool.
Variable size : Obj.t -> N.

(** A falsy response: the slot is freed and the owner falls back to
    forwarding the request; each waiter reads [status] of [null]. *)
Lemma settle_empty pid key waiters now st :
  promises st !! pid = Some {| p_key := key; p_state := Pending waiters |} ->
  let st' := settle cfg size pid Empty now st in
  pendingRequests st' = delete key (pendingRequests st) /\
  httpCache st' = httpCache st /\
  fetched st' = fetched st /\
  handled st'
  = (handled st ++ (pid, Continued) :: map (fun w => (w, Threw)) waiters)%list.
Proof.
  intros Hp st'. subst st'. unfold settle. rewrite Hp. cbn [p_state p_key].
  rewrite disposeAll_handled. cbn. rewrite <- app_assoc. repeat split.
Qed.

(** A rejection: nothing after the await runs, so the registry keeps the
    promise, and the owner and the waiters all end in the exception. *)
Lemma settle_rejects pid key waiters now st :
  promises st !! pid = Some {| p_key := key; p_state := Pending waiters |} ->
  let st' := settle cfg size pid Rejects now st in
  pendingRequests st' = pendingRequests st /\
  promises st' = <[pid := {| p_key := key; p_state := Rejected |}]> (promises st) /\
  httpCache st' = httpCache st /\
  fetched st' = fetched st /\
  handled st'
  = (handled st ++ (pid, Threw) :: map (fun w => (w, Threw)) waiters)%list.
Proof.
  intros Hp st'. subst st'. unfold settle. rewrite Hp. cbn [p_state p_key].
  rewrite disposeAll_handled. cbn. rewrite <- app_assoc. repeat split.
Qed.

(** After a response or a falsy response the key is free again: the next
    request for it that the cache cannot answer starts a fetch of its own. *)
Lemma slot_freed_unless_rejected pid key waiters o now st route req now' :
  promises st !! pid = Some {| p_key := key; p_state := Pending waiters |} ->
  o <> Rejects ->
  let st' := settle cfg size pid o now st in
  pendingRequests st' !! key = None /\
  (url req = key -> isBlocked cfg req = false -> cacheable cfg isDynamic req = true ->
   Obj.get key (httpCache st') = None ->
   fetched (handler cfg isDynamic route req now' st') = (fetched st ++ [(route, key)])%list).
Proof.
  intros Hp Ho st'.
  assert (Hfree : pendingRequests st' !! key = None /\ fetched st' = fetched st).
  { destruct o as [r| |]; [| |congruence].
    - destruct (settle_responds cfg size pid key waiters r now st Hp)
        as (_ & _ & _ & _ & _ & S6 & _ & S8 & _).
      fold st' in S6, S8. rewrite S6, S8. split; [apply lookup_delete_eq | reflexivity].
    - destruct (settle_empty pid key waiters now st Hp) as (S1 & _ & S3 & _).
      fold st' in S1, S3. rewrite S1, S3. split; [apply lookup_delete_eq | reflexivity]. }
  destruct Hfree as [Hfree Hf]. split; [exact Hfree|].
  intros <- Hb Hc Hg.
  rewrite handler_start by (try assumption; now right).
  cbn. now rewrite Hf.
Qed.

(** After a rejection the key stays taken by the rejected promise: with
    deduplication enabled, every later request for it that the cache cannot
    answer joins that promise and ends in its exception, and no fetch is
    started for it. *)
Lemma stale_after_rejection pid key waiters now st route req now' :
  promises st !! pid = Some {| p_key := key; p_state := Pending waiters |} ->
  pendingRequests st !! key = Some pid ->
  DEDUP_ENABLED cfg = true ->
  url req = key -> isBlocked cfg req = false -> cacheable cfg isDynamic req = true ->
  Obj.get key (httpCache st) = None ->
  let st' := settle cfg size pid Rejects now st in
  let st'' := handler cfg isDynamic route req now' st' in
  pendingRequests st'' !! key = Some pid /\
  fetched st'' = fetched st /\
  handled st'' = (handled st' ++ [(route, Threw)])%list.
Proof.
  intros Hp Hk Hd <- Hb Hc Hg st' st''.
  destruct (settle_rejects pid (url req) waiters now st Hp) as (S1 & S2 & S3 & S4 & _).
  fold st' in S1, S2, S3, S4.
  subst st''. rewrite (handler_join cfg isDynamic route req now' st' pid);
    try assumption; [|now rewrite S3|now rewrite S1].
  unfold joinPending. cbn [pendingRequests promises incr_duplicates set_dedupStats].
  rewrite S1, Hk, S2, lookup_insert_eq. cbn. rewrite S1, S4. repeat split. exact Hk.
Qed.

End FailureFacts.

(** C3 at work.  A page is requested and its fetch rejects; the page is
    requested again.  The registry still holds the first promise, the second
    request joins it and ends in its exception, and the only upstream fetch
    ever issued is the first.  Had the fetch brought a falsy response
    instead, the slot would be free and the second request would fetch. *)
Theorem rejected_fetch_keeps_the_slot :
  let u := "https://www.amazon.com/gp/bestsellers" in
  let run := run default_config Target.amazon Json.byteLength in
  let rejected := run [ Intercept 1 (Sample.page u) 1; Settle 1 Rejects 2;
                        Intercept 2 (Sample.page u) 3 ] initial in
  let empty := run [ Intercept 1 (Sample.page u) 1; Settle 1 Empty 2;
                     Intercept 2 (Sample.page u) 3 ] initial in
  (pendingRequests rejected !! u = Some 1%nat /\
   promises rejected !! 1%nat = Some {| p_key := u; p_state := Rejected |} /\
   fetched rejected = [(1%nat, u)] /\
   handled rejected = [(1%nat, Threw); (2%nat, Threw)]) /\
  (pendingRequests empty !! u = Some 2%nat /\
   fetched empty = [(1%nat, u); (2%nat, u)] /\
   handled empty = [(1%nat, Continued)]).
Proof. vm_compute. repeat split. Qed.

(** C4 at work.  Two requests for one page are in flight on one fetch.  When
    the fetch brings a falsy response the owner is forwarded unmodified, and
    the waiter ends in an exception instead; when the fetch rejects, both
    end in the exception.  In neither case is a second fetch issued. *)
Theorem waiter_does_not_fall_back :
  let u := "https://www.amazon.com/gp/bestsellers" in
  let run := run default_config Target.amazon Json.byteLength in
  let empty := run [ Intercept 1 (Sample.page u) 1; Intercept 2 (Sample.page u) 2;
                     Settle 1 Empty 3 ] initial in
  let rejected := run [ Intercept 1 (Sample.page u) 1; Intercept 2 (Sample.page u) 2;
                        Settle 1 Rejects 3 ] initial in
  (handled empty = [(1%nat, Continued); (2%nat, Threw)] /\
   fetched empty = [(1%nat, u)]) /\
  (handled rejected = [(1%nat, Threw); (2%nat, Threw)] /\
   fetched rejected = [(1%nat, u)]).
Proof. vm_compute. repeat split. Qed.

(** ** The snapshot *)

Lemma set_absent k v o : ~ In k (Obj.keys o) -> Obj.set k v o = (o ++ [(k, v)])%list.
Proof.
  unfold Obj.keys. induction o as [|[k' v'] o IH]; cbn; [reflexivity|].
  destruct (String.eqb_spec k k') as [->|Hne]; [tauto|].
  intros H. rewrite IH; tauto.
Qed.

(** Assigning the entries of a mapping one by one to an object rebuilds the
    mapping, its keys being distinct. *)
Lemma assign_all {V} (g : V -> Entry.t) (m : list (string * V)) : forall acc,
  NoDup (map fst m) ->
  (forall k, In k (map fst m) -> ~ In k (Obj.keys acc)) ->
  fold_left (fun c kv => Obj.set (fst kv) (g (snd kv)) c) m acc
  = (acc ++ map (fun kv => (fst kv, g (snd kv))) m)%list.
Proof.
  induction m as [|[k v] m IH]; intros acc Hnd Hdisj; cbn.
  - now rewrite app_nil_r.
  - apply NoDup_cons in Hnd. destruct Hnd as [Hk Hnd].
    rewrite set_absent by (apply Hdisj; now left).
    rewrite IH; [now rewrite <- app_assoc | assumption |].
    intros k' Hk' Hin. unfold Obj.keys in Hin. rewrite map_app in Hin.
    apply in_app_or in Hin. destruct Hin as [Hin|[<-|[]]].
    + apply (Hdisj k'); [now right | exact Hin].
    + apply Hk. now apply list_elem_of_In.
Qed.

Lemma contents_reread now (c : Obj.t) :
  Obj.contents (map (fun kv => (fst kv, Snapshot.to_entry now (Snapshot.of_entry (snd kv)))) c)
  = Obj.contents c.
Proof.
  unfold Obj.contents. rewrite map_map. apply map_ext. now intros [k e].
Qed.

(** C9 (amended).  Let the cache be enabled and clear-on-start off, and let
    the store be dirty, so that a flush whose write succeeds does write.
    Loading the snapshot then reads every entry back with the status, headers
    and body it had, in the same order, and runs [evictLRU] on what it read:
    the loaded store is what eviction leaves of the entries read.  If the
    store read back is under both ceilings, the loaded store has the same
    keys with the same status, headers and body as the store flushed. *)
Theorem snapshot_round_trip (cfg : Config) (size : Obj.t -> N) (st : State)
    (f : Snapshot.file) (now : Z) :
  CACHE_ENABLED cfg = true ->
  CACHE_CLEAR cfg = false ->
  cacheDirty st = true ->
  Obj.wf (httpCache st) ->
  let written := writeCacheToDisk cfg true st f in
  let loaded := fst (loadCache cfg size now (snd written)) in
  let reread :=
    map (fun kv => (fst kv, Snapshot.to_entry now (Snapshot.of_entry (snd kv)))) (httpCache st) in
  Obj.contents reread = Obj.contents (httpCache st) /\
  httpCache loaded = httpCache (evictLRU cfg size (set_httpCache reread initial)) /\
  (stillNeedsEviction cfg size reread = false ->
   Obj.contents (httpCache loaded) = Obj.contents (httpCache st) /\
   length (httpCache loaded) = length (httpCache st)).
Proof.
  intros He Hc Hd Hwf written loaded reread.
  assert (El : httpCache loaded = httpCache (evictLRU cfg size (set_httpCache reread initial))).
  { subst loaded written. unfold writeCacheToDisk, loadCache.
    rewrite Hd, He, Hc. cbn [negb orb andb snd fst].
    rewrite (assign_all (Snapshot.to_entry now)).
    - cbn [app]. rewrite map_map. reflexivity.
    - rewrite map_map. cbn [fst]. exact Hwf.
    - intros k _ []. }
  split; [apply contents_reread|]. split; [exact El|].
  intros Hp. rewrite El. unfold evictLRU.
  cbn [httpCache set_httpCache].
  unfold stillNeedsEviction in Hp. apply orb_false_elim in Hp. destruct Hp as [-> ->].
  cbn [negb andb httpCache set_httpCache].
  split; [apply contents_reread|]. subst reread. now rewrite length_map.
Qed.

Lemma snapshot_round_trip_witness :
  let st := run default_config Target.amazon Json.byteLength (Sample.visits 2) initial in
  let written := writeCacheToDisk default_config true st Snapshot.Missing in
  let loaded := fst (loadCache default_config Json.byteLength 1000 (snd written)) in
  Obj.contents (httpCache loaded) = Obj.contents (httpCache st).
Proof.
  intros st written loaded.
  assert (Hwf : Obj.wf (httpCache st)).
  { unfold Obj.wf. apply (bool_decide_unpack _). vm_compute. exact I. }
  destruct (snapshot_round_trip default_config Json.byteLength st Snapshot.Missing 1000
              eq_refl eq_refl eq_refl Hwf) as (_ & _ & H).
  apply H. vm_compute. reflexivity.
Defined.

(** C9, as stated, fails for a full store.  After a hundred pages fetched
    under the default configuration the store holds a hundred entries; it is
    flushed; loading the snapshot evicts the oldest of them. *)
Lemma full_store_not_reproduced :
  let st := run default_config Target.amazon Json.byteLength (Sample.visits 100) initial in
  let written := writeCacheToDisk default_config true st Snapshot.Missing in
  let loaded := fst (loadCache default_config Json.byteLength 1000 (snd written)) in
  length (httpCache st) = 100%nat /\
  cacheDirty st = true /\
  length (httpCache loaded) = 99%nat /\
  Obj.get (Sample.nth_url 0) (httpCache st) <> None /\
  Obj.get (Sample.nth_url 0) (httpCache loaded) = None.
Proof. vm_compute. repeat split. discriminate. Qed.

(** ** The store stays an object *)

Section WellFormed.

Variable cfg : Config.
Variable isDynamic : string -> bool.
Variable size : Obj.t -> N.

Lemma wf_handler route req now st :
  Obj.wf (httpCache st) -> Obj.wf (httpCache (handler cfg isDynamic route req now st)).
Proof.
  intros Hwf. unfold handler.
  destruct (isBlockedType req); [exact Hwf|].
  destruct (DOMAIN_BLOCKING_ENABLED cfg && isBlockedDomain (url req)); [exact Hwf|].
  destruct (cacheable cfg isDynamic req); [|exact Hwf].
  destruct (Obj.get (url req) (httpCache st)) as [cached|].
  - cbn. now apply ObjFacts.wf_set.
  - destruct (DEDUP_ENABLED cfg && bool_decide (is_Some (pendingRequests st !! url req))).
    + now destruct (joinPending_frame route (url req) (incr_duplicates st)) as (-> & _).
    + exact Hwf.
Qed.

Lemma wf_settle pid o now st :
  Obj.wf (httpCache st) -> Obj.wf (httpCache (settle cfg size pid o now st)).
Proof.
  intros Hwf. unfold settle.
  destruct (promises st !! pid) as [p|]; [|exact Hwf].
  destruct (p_state p) as [waiters| |]; try exact Hwf.
  destruct o as [r| |]; rewrite httpCache_disposeAll; cbn; try exact Hwf.
  destruct ((200 <=? Result.status r) && (Result.status r <? 400)); [|exact Hwf].
  cbn. apply ObjFacts.wf_set. now apply evictLRU_wf.
Qed.

(** In every state a run reaches from a store with distinct keys, the store
    has distinct keys. *)
Lemma wf_run evs : forall st,
  Obj.wf (httpCache st) -> Obj.wf (httpCache (run cfg isDynamic size evs st)).
Proof.
  induction evs as [|ev evs IH]; intros st Hwf; [exact Hwf|].
  cbn [run fold_left]. apply IH.
  destruct ev; cbn [step]; [now apply wf_handler | now apply wf_settle].
Qed.

End WellFormed.

Lemma wf_initial : Obj.wf (httpCache initial).
Proof. constructor. Qed.

(** * Further properties of the code *)

(** ** Every branch of the handler, and the counters *)

Section Branches.

Variable cfg : Config.
Variable isDynamic : string -> bool.
Variable size : Obj.t -> N.

Lemma joinPending_stats route key st :
  let st' := joinPending route key st in
  cacheStats st' = cacheStats st /\ dedupStats st' = dedupStats st /\
  domainBlockStats st' = domainBlockStats st /\ fetched st' = fetched st.
Proof.
  unfold joinPending.
  destruct (pendingRequests st !! key) as [pid|]; [|repeat split].
  destruct (promises st !! pid) as [p|]; [|repeat split].
  destruct (p_state p); repeat split.
Qed.

Lemma handler_branch route req now st :
  Branch cfg isDynamic route req now st (handler cfg isDynamic route req now st).
Proof.
  destruct (isBlockedType req) eqn:Ht.
  { rewrite handler_blocked_type by assumption. now constructor. }
  destruct (DOMAIN_BLOCKING_ENABLED cfg && isBlockedDomain (url req)) eqn:Hd.
  { rewrite handler_blocked_domain by assumption. now constructor. }
  assert (Hb : isBlocked cfg req = false) by (unfold isBlocked; now rewrite Ht, Hd).
  destruct (cacheable cfg isDynamic req) eqn:Hc.
  2:{ rewrite handler_pass_through by assumption. now constructor. }
  destruct (Obj.get (url req) (httpCache st)) as [cached|] eqn:Hg.
  { rewrite (handler_hit cfg isDynamic route req now st cached) by assumption.
    now constructor. }
  destruct (DEDUP_ENABLED cfg) eqn:Hdd.
  - destruct (pendingRequests st !! url req) as [pid|] eqn:Hp.
    + rewrite (handler_join cfg isDynamic route req now st pid) by assumption.
      now apply (Join cfg isDynamic route req now st pid).
    + rewrite handler_start by (try assumption; now right). constructor; auto.
  - rewrite handler_start by (try assumption; now left). constructor; auto.
Qed.

(** What the end of a fetch leaves of the counters and of the fetch log. *)
Lemma settle_stats pid o now st :
  let st' := settle cfg size pid o now st in
  hits (cacheStats st') = hits (cacheStats st) /\
  misses (cacheStats st') = misses (cacheStats st) /\
  writes (cacheStats st') = writes (cacheStats st) /\
  evictions (cacheStats st) <= evictions (cacheStats st') /\
  dedupStats st' = dedupStats st /\
  domainBlockStats st' = domainBlockStats st /\
  fetched st' = fetched st.
Proof.
  unfold settle.
  destruct (promises st !! pid) as [p|]; [|cbn; repeat split; lia].
  destruct (p_state p) as [waiters| |]; try (cbn; repeat split; lia).
  destruct o as [r| |]; rewrite disposeAll_handled; cbn; try (repeat split; lia).
  destruct ((200 <=? Result.status r) && (Result.status r <? 400)); cbn;
    [|repeat split; lia].
  destruct (evictLRU_frame cfg size st) as (F1 & F2 & F3 & F4 & F5 & _ & _ & F8 & _).
  destruct (evictLRU_spec cfg size st) as (m & _ & _ & _ & _ & _ & Hev & _).
  rewrite F1, F2, F3, F4, F5, F8, Hev. repeat split. lia.
Qed.

(** One step of a run, counter by counter. *)
Lemma step_stats st ev :
  let st' := step cfg isDynamic size st ev in
  let c := if reachesCache cfg isDynamic ev then 1 else 0 in
  hits (cacheStats st') + misses (cacheStats st') + duplicates (dedupStats st')
  = hits (cacheStats st) + misses (cacheStats st) + duplicates (dedupStats st) + c /\
  (hits (cacheStats st) <= hits (cacheStats st') /\
   misses (cacheStats st) <= misses (cacheStats st') /\
   duplicates (dedupStats st) <= duplicates (dedupStats st') /\
   unique (dedupStats st) <= unique (dedupStats st') /\
   evictions (cacheStats st) <= evictions (cacheStats st') /\
   blocked (domainBlockStats st) <= blocked (domainBlockStats st') /\
   writes (cacheStats st') = writes (cacheStats st)) /\
  (misses (cacheStats st') - misses (cacheStats st)
   = unique (dedupStats st') - unique (dedupStats st) /\
   misses (cacheStats st') - misses (cacheStats st)
   = Z.of_nat (length (fetched st')) - Z.of_nat (length (fetched st))) /\
  (DOMAIN_BLOCKING_ENABLED cfg = false ->
   blocked (domainBlockStats st') = blocked (domainBlockStats st)) /\
  (DEDUP_ENABLED cfg = false ->
   duplicates (dedupStats st') = duplicates (dedupStats st)).
Proof.
  destruct ev as [route req now|pid o now]; cbn [step reachesCache].
  - destruct (handler_branch route req now st)
      as [Ht|Ht Hd|Hb Hc|cached Hb Hc Hg|pid Hb Hc Hg Hdd Hp|Hb Hc Hg Hdd].
    + assert (Hb : isBlocked cfg req = true) by (unfold isBlocked; now rewrite Ht).
      rewrite Hb. cbn. repeat split; lia.
    + assert (Hb : isBlocked cfg req = true)
        by (unfold isBlocked; rewrite Hd; apply orb_true_r).
      rewrite Hb. cbn. repeat split; try lia.
      intros E. rewrite E in Hd. discriminate.
    + rewrite Hb, Hc. cbn. repeat split; lia.
    + rewrite Hb, Hc. cbn. repeat split; lia.
    + rewrite Hb, Hc.
      destruct (joinPending_stats route (url req) (incr_duplicates st))
        as (-> & -> & -> & ->).
      cbn. repeat split; try lia. intros E. congruence.
    + rewrite Hb, Hc. cbn. rewrite length_app. cbn. repeat split; lia.
  - destruct (settle_stats pid o now st) as (-> & -> & -> & Hev & -> & -> & ->).
    cbn zeta. repeat split; lia.
Qed.

End Branches.

Section RunCounters.

Variable cfg : Config.
Variable isDynamic : string -> bool.
Variable size : Obj.t -> N.

Local Abbreviation exec := (run cfg isDynamic size).

Lemma run_stats evs : forall st,
  let st' := exec evs st in
  hits (cacheStats st') + misses (cacheStats st') + duplicates (dedupStats st')
  = hits (cacheStats st) + misses (cacheStats st) + duplicates (dedupStats st)
    + Z.of_nat (length (List.filter (reachesCache cfg isDynamic) evs)) /\
  (hits (cacheStats st) <= hits (cacheStats st') /\
   misses (cacheStats st) <= misses (cacheStats st') /\
   duplicates (dedupStats st) <= duplicates (dedupStats st') /\
   unique (dedupStats st) <= unique (dedupStats st') /\
   evictions (cacheStats st) <= evictions (cacheStats st') /\
   blocked (domainBlockStats st) <= blocked (domainBlockStats st') /\
   writes (cacheStats st') = writes (cacheStats st)) /\
  (misses (cacheStats st') - misses (cacheStats st)
   = unique (dedupStats st') - unique (dedupStats st) /\
   misses (cacheStats st') - misses (cacheStats st)
   = Z.of_nat (length (fetched st')) - Z.of_nat (length (fetched st))) /\
  (DOMAIN_BLOCKING_ENABLED cfg = false ->
   blocked (domainBlockStats st') = blocked (domainBlockStats st)) /\
  (DEDUP_ENABLED cfg = false ->
   duplicates (dedupStats st') = duplicates (dedupStats st)).
Proof.
  induction evs as [|ev evs IH]; intros st.
  - cbn. repeat split; lia.
  - cbn zeta. rewrite run_cons.
    destruct (step_stats cfg isDynamic size st ev)
      as (S1 & (S2 & S3 & S4 & S5 & S6 & S7 & S8) & (S9 & S10) & S11 & S12).
    destruct (IH (step cfg isDynamic size st ev))
      as (R1 & (R2 & R3 & R4 & R5 & R6 & R7 & R8) & (R9 & R10) & R11 & R12).
    cbn zeta in *. cbn [List.filter].
    repeat split; try lia.
    + destruct (reachesCache cfg isDynamic ev); cbn [length]; lia.
    + intros E. rewrite R11, S11; auto.
    + intros E. rewrite R12, S12; auto.
Qed.

Lemma loadCache_fresh now f :
  let st := fst (loadCache cfg size now f) in
  hits (cacheStats st) = 0 /\ misses (cacheStats st) = 0 /\ writes (cacheStats st) = 0 /\
  dedupStats st = dedupStats initial /\ domainBlockStats st = domainBlockStats initial /\
  pendingRequests st = ∅ /\ promises st = ∅ /\ fetched st = [] /\ handled st = [].
Proof.
  intros st. subst st. unfold loadCache.
  destruct (CACHE_ENABLED cfg); [|cbn; repeat split].
  destruct (if CACHE_CLEAR cfg && Snapshot.exists_ f then Snapshot.Missing else f)
    as [| |m]; cbn [fst]; try solve [cbn; repeat split].
  match goal with |- context [evictLRU cfg size ?s] =>
    destruct (evictLRU_frame cfg size s) as (F1 & F2 & F3 & F4 & F5 & F6 & F7 & F8 & F9);
    rewrite F1, F2, F3, F4, F5, F6, F7, F8, F9
  end.
  cbn. repeat split.
Qed.

End RunCounters.

(** ** What the counters count *)

(** X1.  Through any run, from any state: each request that reaches the
    caching branch is counted once, as a hit, a miss or a duplicate, and no
    other event moves those three counters. *)
Theorem cached_requests_counted_once (cfg : Config) (isDynamic : string -> bool)
    (size : Obj.t -> N) (evs : list Event) (st : State) :
  let st' := run cfg isDynamic size evs st in
  hits (cacheStats st') + misses (cacheStats st') + duplicates (dedupStats st')
  = hits (cacheStats st) + misses (cacheStats st) + duplicates (dedupStats st)
    + Z.of_nat (length (List.filter (reachesCache cfg isDynamic) evs)).
Proof. apply run_stats. Qed.

(** X2.  In a process that starts by loading the snapshot, whatever the file
    and the events: [misses] equals [unique], and both equal the number of
    upstream fetches the layer has issued. *)
Theorem misses_are_the_fetches (cfg : Config) (isDynamic : string -> bool)
    (size : Obj.t -> N) (now : Z) (f : Snapshot.file) (evs : list Event) :
  let st := run cfg isDynamic size evs (fst (loadCache cfg size now f)) in
  misses (cacheStats st) = unique (dedupStats st) /\
  misses (cacheStats st) = Z.of_nat (length (fetched st)).
Proof.
  intros st.
  destruct (loadCache_fresh cfg size now f) as (_ & M & _ & D & _ & _ & _ & F & _).
  destruct (run_stats cfg isDynamic size evs (fst (loadCache cfg size now f)))
    as (_ & _ & (R1 & R2) & _).
  fold st in R1, R2. rewrite M, D in R1. rewrite M, F in R2. cbn in R1, R2. lia.
Qed.

(** X3.  No event of a run lowers a counter, and no event of a run writes
    the snapshot: [writes] is left to the flush. *)
Theorem counters_never_decrease (cfg : Config) (isDynamic : string -> bool)
    (size : Obj.t -> N) (evs : list Event) (st : State) :
  let st' := run cfg isDynamic size evs st in
  hits (cacheStats st) <= hits (cacheStats st') /\
  misses (cacheStats st) <= misses (cacheStats st') /\
  duplicates (dedupStats st) <= duplicates (dedupStats st') /\
  unique (dedupStats st) <= unique (dedupStats st') /\
  evictions (cacheStats st) <= evictions (cacheStats st') /\
  blocked (domainBlockStats st) <= blocked (domainBlockStats st') /\
  writes (cacheStats st') = writes (cacheStats st).
Proof. apply run_stats. Qed.

(** X4.  A feature switched off leaves its counter alone through any run:
    [blocked] without domain blocking, [duplicates] without deduplication. *)
Theorem switched_off_counters_still (cfg : Config) (isDynamic : string -> bool)
    (size : Obj.t -> N) (evs : list Event) (st : State) :
  let st' := run cfg isDynamic size evs st in
  (DOMAIN_BLOCKING_ENABLED cfg = false ->
   blocked (domainBlockStats st') = blocked (domainBlockStats st)) /\
  (DEDUP_ENABLED cfg = false ->
   duplicates (dedupStats st') = duplicates (dedupStats st)).
Proof.
  intros st'.
  destruct (run_stats cfg isDynamic size evs st) as (_ & _ & _ & B & D).
  split; assumption.
Qed.

(** ** More on eviction and on cache writes *)

Lemma filter_twice {A} (f g : A -> bool) (l : list A) :
  List.filter f (List.filter g l) = List.filter (fun x => g x && f x) l.
Proof.
  induction l as [|x l IH]; cbn; [reflexivity|].
  destruct (g x); cbn; [destruct (f x)|]; now rewrite IH.
Qed.

Lemma removeKeys_filter ks : forall o,
  Obj.removeKeys ks o
  = List.filter (fun kv => negb (existsb (String.eqb (fst kv)) ks)) o.
Proof.
  induction ks as [|k ks IH]; intros o.
  - cbn. induction o as [|x o IHo]; cbn; [reflexivity|]. now rewrite <- IHo.
  - rewrite ObjFacts.removeKeys_cons, IH. unfold Obj.remove. rewrite filter_twice.
    apply filter_ext. intros [k' v]. cbn.
    rewrite (String.eqb_sym k k'). now rewrite negb_orb.
Qed.

Lemma get_remove k k' o :
  Obj.get k (Obj.remove k' o) = if String.eqb k k' then None else Obj.get k o.
Proof.
  unfold Obj.remove. induction o as [|[k1 v1] o IH]; cbn.
  - now destruct (String.eqb k k').
  - destruct (String.eqb_spec k' k1) as [->|Hne]; cbn.
    + rewrite IH. now destruct (String.eqb k k1).
    + rewrite IH. destruct (String.eqb_spec k k1) as [->|Hne'].
      * destruct (String.eqb_spec k1 k'); congruence.
      * reflexivity.
Qed.

Lemma get_removeKeys k ks : forall o e,
  Obj.get k (Obj.removeKeys ks o) = Some e -> Obj.get k o = Some e.
Proof.
  induction ks as [|k' ks IH]; intros o e; [trivial|].
  rewrite ObjFacts.removeKeys_cons. intros H. apply IH in H.
  rewrite get_remove in H. now destruct (String.eqb k k').
Qed.

Lemma NoDup_of_keys (o : Obj.t) : Obj.wf o -> NoDup o.
Proof.
  unfold Obj.wf, Obj.keys. induction o as [|[k v] o IH]; cbn; intros H.
  - constructor.
  - apply NoDup_cons in H. destruct H as [Hk Hnd].
    apply NoDup_cons. split; [|now apply IH].
    intros Hin. apply Hk. apply list_elem_of_In. apply list_elem_of_In in Hin.
    now apply (in_map fst) in Hin.
Qed.

Lemma length_removed (c sorted : Obj.t) (i : nat) :
  Obj.wf c -> Permutation sorted c -> (i <= length c)%nat ->
  (length (Obj.removeKeys (Obj.keys (firstn i sorted)) c) + i = length c)%nat.
Proof.
  intros Hwf Hperm Hi.
  assert (Hp : Permutation (Obj.removeKeys (Obj.keys (firstn i sorted)) c) (skipn i sorted)).
  { apply NoDup_Permutation.
    - apply NoDup_of_keys. now apply ObjFacts.wf_removeKeys.
    - assert (Hs : NoDup sorted) by (rewrite Hperm; now apply NoDup_of_keys).
      rewrite <- (firstn_skipn i sorted) in Hs. apply NoDup_app in Hs. tauto.
    - intros kv. rewrite !list_elem_of_In. now apply evicted_and_kept. }
  rewrite (Permutation_length Hp), length_skipn, (Permutation_length Hperm). lia.
Qed.

Section EvictionMore.

Variable cfg : Config.
Variable size : Obj.t -> N.

Lemma evictLRU_idle st :
  stillNeedsEviction cfg size (httpCache st) = false \/ httpCache st = [] ->
  evictLRU cfg size st = st.
Proof.
  intros H. unfold evictLRU. rewrite pressure_split.
  destruct (stillNeedsEviction cfg size (httpCache st)) eqn:E; [|reflexivity].
  destruct H as [H|H]; [discriminate|].
  cbn [negb]. rewrite H. cbn. destruct st; cbn in *. now subst.
Qed.

End EvictionMore.

(** X5.  [evictLRU] leaves the state exactly as it is when no signal is
    active, and also when the store is empty, whatever the ceilings; and
    running it a second time changes nothing more. *)
Theorem evictLRU_settles (cfg : Config) (size : Obj.t -> N) (st : State) :
  (stillNeedsEviction cfg size (httpCache st) = false \/ httpCache st = [] ->
   evictLRU cfg size st = st) /\
  evictLRU cfg size (evictLRU cfg size st) = evictLRU cfg size st.
Proof.
  split; [apply evictLRU_idle|].
  apply evictLRU_idle.
  destruct (evictLRU_spec cfg size st) as (m & _ & _ & _ & Hend & _).
  exact Hend.
Qed.

(** X6.  The entries [evictLRU] keeps are kept as they were and in the order
    they had: the store after is the store before, filtered.  The store
    shrinks by as many entries as [evictions] grows, and the dirty flag is
    raised exactly when the store shrank. *)
Theorem evictLRU_accounts (cfg : Config) (size : Obj.t -> N) (st : State) :
  Obj.wf (httpCache st) ->
  let st' := evictLRU cfg size st in
  (exists keep : string * Entry.t -> bool,
     httpCache st' = List.filter keep (httpCache st)) /\
  Z.of_nat (length (httpCache st)) - Z.of_nat (length (httpCache st'))
  = evictions (cacheStats st') - evictions (cacheStats st) /\
  cacheDirty st'
  = cacheDirty st || (length (httpCache st') <? length (httpCache st))%nat.
Proof.
  intros Hwf st'.
  destruct (evictLRU_spec cfg size st) as (m & Hm & Heq & _ & _ & _ & Hev & Hd).
  fold st' in Heq, Hev, Hd.
  pose proof (length_removed (httpCache st) (JsArray.sort compareFn (httpCache st)) m
                Hwf (SortFacts.sort_perm _) Hm) as Hlen.
  rewrite <- Heq in Hlen.
  split; [|split].
  - eexists. rewrite Heq. apply removeKeys_filter.
  - lia.
  - rewrite Hd. f_equal.
    destruct (Z.ltb_spec 0 (Z.of_nat m)), (Nat.ltb_spec (length (httpCache st')) (length (httpCache st)));
      try reflexivity; lia.
Qed.

Lemma evictLRU_accounts_witness :
  let st := Sample.with_cache
              [ ("https://www.amazon.com/b", Sample.entry_at 20);
                ("https://www.amazon.com/a", Sample.entry_at 10);
                ("https://www.amazon.com/c", Sample.entry_at 30) ] in
  let st' := evictLRU Sample.three_entries Json.byteLength st in
  Z.of_nat (length (httpCache st)) - Z.of_nat (length (httpCache st'))
  = evictions (cacheStats st') - evictions (cacheStats st).
Proof.
  intros st st'.
  assert (Hwf : Obj.wf (httpCache st)).
  { unfold Obj.wf. apply (bool_decide_unpack _). vm_compute. exact I. }
  destruct (evictLRU_accounts Sample.three_entries Json.byteLength st Hwf) as (_ & H & _).
  exact H.
Defined.

(** X7.  With no size ceiling ([MAX_CACHE_SIZE_MB] not a number), eviction by
    count makes room for exactly one entry: a store of [l] entries under a
    ceiling of [n] is left with the smaller of [l] and [n - 1] entries, none
    when [n] is zero or less. *)
Theorem evictLRU_makes_room_for_one (cfg : Config) (size : Obj.t -> N) (st : State) (n : Z) :
  Obj.wf (httpCache st) ->
  MAX_CACHE_SIZE_MB cfg = None ->
  MAX_CACHE_ENTRIES cfg = Some n ->
  Z.of_nat (length (httpCache (evictLRU cfg size st)))
  = Z.min (Z.of_nat (length (httpCache st))) (Z.max 0 (n - 1)).
Proof.
  intros Hwf Hs Hn.
  assert (Hpress : forall c, stillNeedsEviction cfg size c = (n <=? Z.of_nat (length c))).
  { intros c. unfold stillNeedsEviction, needsEvictionByCount, needsEvictionBySize, ge_count, ge_size.
    rewrite Hs, Hn. apply orb_false_r. }
  destruct (evictLRU_spec cfg size st) as (m & Hm & Heq & Hbefore & Hend & _).
  set (sorted := JsArray.sort compareFn (httpCache st)) in *.
  pose proof (length_removed (httpCache st) sorted m Hwf (SortFacts.sort_perm _) Hm) as Hlen.
  rewrite <- Heq in Hlen.
  assert (Hlast : m = 0%nat \/ n <= Z.of_nat (length (httpCache st)) - Z.of_nat m + 1).
  { destruct m as [|m']; [now left|right].
    assert (Hlt : (m' < S m')%nat) by lia.
    specialize (Hbefore m' Hlt). rewrite Hpress in Hbefore. apply Z.leb_le in Hbefore.
    assert (Hm' : (m' <= length (httpCache st))%nat) by lia.
    pose proof (length_removed (httpCache st) sorted m' Hwf (SortFacts.sort_perm _) Hm').
    lia. }
  destruct Hend as [Hend|Hend].
  - rewrite Hpress in Hend. apply Z.leb_gt in Hend. lia.
  - rewrite Hend in *. cbn [length] in *.
    destruct (Z.leb_spec n 0); [lia|].
    destruct Hlast as [->|Hlast]; lia.
Qed.

Lemma evictLRU_makes_room_for_one_witness :
  let cfg := {| CACHE_ENABLED := true; CACHE_CLEAR := false;
                MAX_CACHE_ENTRIES := Some 2; MAX_CACHE_SIZE_MB := None;
                DEDUP_ENABLED := true; DOMAIN_BLOCKING_ENABLED := true |} in
  let st := Sample.with_cache
              [ ("https://www.amazon.com/b", Sample.entry_at 20);
                ("https://www.amazon.com/a", Sample.entry_at 10);
                ("https://www.amazon.com/c", Sample.entry_at 30) ] in
  Z.of_nat (length (httpCache (evictLRU cfg Json.byteLength st))) = 1.
Proof.
  intros cfg st.
  assert (Hwf : Obj.wf (httpCache st)).
  { unfold Obj.wf. apply (bool_decide_unpack _). vm_compute. exact I. }
  apply (evictLRU_makes_room_for_one cfg Json.byteLength st 2 Hwf eq_refl eq_refl).
Defined.

(** X8.  After a cache write the key answers with the response just written
    and the time of the write, and the store is dirty.  Under any other key
    the store answers, if at all, with the entry it had before: a write can
    evict other entries, it never alters them. *)
Theorem put_then_get (cfg : Config) (size : Obj.t -> N) (key : string) (r : Result.t)
    (now : Z) (st : State) :
  let st' := put cfg size key r now st in
  Obj.get key (httpCache st')
  = Some {| Entry.status := Result.status r; Entry.headers := Result.headers r;
            Entry.body := Base64.encode (Result.body r); Entry.lastAccess := now |} /\
  cacheDirty st' = true /\
  (forall k e, k <> key -> Obj.get k (httpCache st') = Some e ->
               Obj.get k (httpCache st) = Some e) /\
  (Obj.wf (httpCache st) -> Obj.wf (httpCache st')).
Proof.
  intros st'. subst st'. rewrite httpCache_put. repeat split.
  - apply ObjFacts.get_set_eq.
  - intros k e Hk Hg. rewrite ObjFacts.get_set_ne in Hg by congruence.
    destruct (evictLRU_spec cfg size st) as (m & _ & Heq & _).
    rewrite Heq in Hg. now apply get_removeKeys in Hg.
  - intros Hwf. apply ObjFacts.wf_set. now apply evictLRU_wf.
Qed.

(** X9.  A response whose status is outside [200, 400) is delivered and not
    stored: the owner and the waiters are fulfilled with it and the key is
    free again, while the store, its counters and the dirty flag are what
    they were. *)
Theorem error_status_not_cached (cfg : Config) (size : Obj.t -> N) (pid : nat)
    (key : string) (waiters : list nat) (r : Result.t) (now : Z) (st : State) :
  promises st !! pid = Some {| p_key := key; p_state := Pending waiters |} ->
  Result.status r < 200 \/ 400 <= Result.status r ->
  let st' := settle cfg size pid (Responds r) now st in
  httpCache st' = httpCache st /\
  cacheStats st' = cacheStats st /\
  cacheDirty st' = cacheDirty st /\
  pendingRequests st' !! key = None /\
  handled st'
  = (handled st ++ (pid, Fulfilled r) :: map (fun w => (w, Fulfilled r)) waiters)%list.
Proof.
  intros Hp Hs st'.
  destruct (settle_responds cfg size pid key waiters r now st Hp)
    as (S1 & S2 & S3 & _ & _ & S6 & _ & _ & S9).
  fold st' in S1, S2, S3, S6, S9.
  assert (E : (200 <=? Result.status r) && (Result.status r <? 400) = false).
  { destruct Hs as [Hs|Hs].
    - apply Z.leb_gt in Hs. now rewrite Hs.
    - apply Z.ltb_ge in Hs. rewrite Hs. apply andb_false_r. }
  rewrite E in S1, S2, S3.
  rewrite S6. repeat split; try assumption. apply lookup_delete_eq.
Qed.

Lemma error_status_not_cached_witness :
  let u := "https://www.amazon.com/gp/missing" in
  let r := {| Result.status := 404; Result.headers := []; Result.body := [] |} in
  let st := handler default_config Target.amazon 1 (Sample.page u) 1 initial in
  httpCache (settle default_config Json.byteLength 1 (Responds r) 2 st) = httpCache st.
Proof.
  intros u r st.
  apply (error_status_not_cached default_config Json.byteLength 1 u [] r 2 st).
  - vm_compute. reflexivity.
  - right. cbn. lia.
Defined.

(** X10.  A request that is not blocked and that is not a GET, or whose URL
    starts with [data:] or [blob:], or that comes while the cache is
    disabled, is forwarded unmodified, and nothing of the state moves but the
    record of that disposal. *)
Theorem not_cacheable_forwarded (cfg : Config) (isDynamic : string -> bool)
    (route : nat) (req : Request) (now : Z) (st : State) :
  isBlocked cfg req = false ->
  CACHE_ENABLED cfg = false \/ isGet req = false \/ isDataOrBlob (url req) = true ->
  handler cfg isDynamic route req now st
  = set_handled (handled st ++ [(route, Continued)]) st.
Proof.
  intros Hb Hn. rewrite handler_pass_through; [reflexivity | assumption |].
  unfold cacheable. destruct Hn as [-> | [-> | ->]]; cbn; now rewrite ?andb_false_r.
Qed.

Lemma not_cacheable_forwarded_witness :
  let req := {| resourceType := "xhr"; url := "https://www.amazon.com/cart/add";
                method := "POST" |} in
  handler default_config Target.amazon 3 req 1 initial
  = set_handled [(3%nat, Continued)] initial.
Proof.
  intros req.
  apply (not_cacheable_forwarded default_config Target.amazon 3 req 1 initial).
  - vm_compute. reflexivity.
  - right. left. vm_compute. reflexivity.
Defined.

(** ** Without deduplication *)

Section NoDedup.

Variable cfg : Config.
Variable isDynamic : string -> bool.
Variable size : Obj.t -> N.

Lemma start_all req (js : list (nat * Z)) : forall st,
  DEDUP_ENABLED cfg = false ->
  isBlocked cfg req = false -> cacheable cfg isDynamic req = true ->
  Obj.get (url req) (httpCache st) = None ->
  let st' := run cfg isDynamic size (map (fun j => Intercept (fst j) req (snd j)) js) st in
  fetched st' = (fetched st ++ map (fun j => (fst j, url req)) js)%list /\
  misses (cacheStats st') = misses (cacheStats st) + Z.of_nat (length js) /\
  httpCache st' = httpCache st /\
  handled st' = handled st.
Proof.
  induction js as [|[route now] js IH]; intros st Hd Hb Hc Hg.
  - cbn. rewrite app_nil_r. repeat split. lia.
  - cbn [map fst snd]. rewrite run_cons. cbn [step].
    rewrite handler_start by (try assumption; now left).
    destruct (IH (startFetch route (url req) st) Hd Hb Hc Hg) as (F & M & C & H).
    cbn zeta. rewrite F, M, C, H. cbn. rewrite <- app_assoc. cbn.
    repeat split. lia.
Qed.

End NoDedup.

(** X11.  With deduplication switched off, concurrent requests for one page
    that the cache cannot answer fetch each for itself: as many upstream
    fetches and misses as requests, in the order of arrival, none of the
    routes disposed of yet; and the registry keeps, under the key, the
    promise of the last request only. *)
Theorem no_dedup_fetches_each (cfg : Config) (isDynamic : string -> bool)
    (size : Obj.t -> N) (req : Request) (js : list (nat * Z)) (j : nat * Z) (st : State) :
  DEDUP_ENABLED cfg = false ->
  isBlocked cfg req = false ->
  cacheable cfg isDynamic req = true ->
  Obj.get (url req) (httpCache st) = None ->
  let st' := run cfg isDynamic size
               (map (fun j => Intercept (fst j) req (snd j)) (js ++ [j])) st in
  fetched st' = (fetched st ++ map (fun j => (fst j, url req)) (js ++ [j]))%list /\
  misses (cacheStats st') = misses (cacheStats st) + Z.of_nat (length (js ++ [j])) /\
  duplicates (dedupStats st') = duplicates (dedupStats st) /\
  handled st' = handled st /\
  pendingRequests st' !! url req = Some (fst j).
Proof.
  intros Hd Hb Hc Hg st'.
  destruct (start_all cfg isDynamic size req (js ++ [j]) st Hd Hb Hc Hg) as (F & M & _ & H).
  fold st' in F, M, H.
  destruct (run_stats cfg isDynamic size
              (map (fun j => Intercept (fst j) req (snd j)) (js ++ [j])) st)
    as (_ & _ & _ & _ & D).
  fold st' in D.
  repeat split; try assumption; [now apply D|].
  subst st'. rewrite map_app, run_app. cbn [map run fold_left step].
  destruct (start_all cfg isDynamic size req js st Hd Hb Hc Hg) as (_ & _ & C & _).
  rewrite handler_start; [| assumption | assumption | now rewrite C | now left].
  cbn. apply lookup_insert_eq.
Qed.

Lemma no_dedup_fetches_each_witness :
  let cfg := {| CACHE_ENABLED := true; CACHE_CLEAR := false;
                MAX_CACHE_ENTRIES := Some 100; MAX_CACHE_SIZE_MB := Some (50 # 1);
                DEDUP_ENABLED := false; DOMAIN_BLOCKING_ENABLED := true |} in
  let u := "https://en.wikipedia.org/wiki/Deep_learning" in
  let st' := run cfg Target.wikipedia Json.byteLength
               (map (fun j => Intercept (fst j) (Sample.page u) (snd j))
                  ([(1%nat, 1); (2%nat, 2)] ++ [(3%nat, 3)])) initial in
  fetched st' = [(1%nat, u); (2%nat, u); (3%nat, u)].
Proof.
  intros cfg u st'.
  apply (no_dedup_fetches_each cfg Target.wikipedia Json.byteLength (Sample.page u)
           [(1%nat, 1); (2%nat, 2)] (3%nat, 3) initial); vm_compute; reflexivity.
Defined.

(** ** The tests on the URL *)

Module StrFacts.
Import Str.

Lemma append_nil (s : string) : (EmptyString ++ s)%string = s.
Proof. reflexivity. Qed.

Lemma append_cons (c : ascii) (s t : string) :
  (String c s ++ t)%string = String c (s ++ t)%string.
Proof. reflexivity. Qed.

Lemma prefix_split (p s : string) :
  String.prefix p s = true <-> exists b, s = (p ++ b)%string.
Proof.
  revert s. induction p as [|c p IH]; intros s.
  - destruct s; cbn; split; eauto.
  - destruct s as [|d s]; cbn.
    + split; [discriminate | intros [b Hb]; discriminate].
    + destruct (Ascii.ascii_dec c d) as [->|Hne].
      * rewrite IH. split; intros [b Hb]; exists b.
        -- rewrite append_cons. now f_equal.
        -- rewrite append_cons in Hb. now injection Hb.
      * split; [discriminate|]. intros [b Hb]. rewrite append_cons in Hb. congruence.
Qed.

(** [includes] finds exactly the substrings. *)
Lemma includes_split (s p : string) :
  includes s p = true <-> exists a b, s = (a ++ p ++ b)%string.
Proof.
  induction s as [|c s IH].
  - cbn [includes]. rewrite orb_false_r, prefix_split. split.
    + intros [b Hb]. exists EmptyString, b. now rewrite append_nil.
    + intros (a & b & H). destruct a as [|? ?]; [|rewrite append_cons in H; discriminate].
      rewrite append_nil in H. eauto.
  - cbn [includes]. rewrite orb_true_iff, prefix_split, IH. split.
    + intros [[b Hb]|(a & b & H)].
      * exists EmptyString, b. now rewrite append_nil.
      * exists (String c a), b. rewrite append_cons. now f_equal.
    + intros (a & b & H). destruct a as [|d a].
      * left. rewrite append_nil in H. eauto.
      * right. rewrite append_cons in H. injection H as _ H. eauto.
Qed.

Lemma fold_case_idem (c : ascii) : fold_case (fold_case c) = fold_case c.
Proof. destruct c as [[] [] [] [] [] [] [] []]; reflexivity. Qed.

Lemma lower_idem (s : string) : lower (lower s) = lower s.
Proof. induction s as [|c s IH]; cbn; [reflexivity|]. now rewrite fold_case_idem, IH. Qed.

Lemma test_i_lower (p s s' : string) : lower s = lower s' -> test_i p s = test_i p s'.
Proof. unfold test_i. now intros ->. Qed.

Lemma test_seq_i_lower (a b s s' : string) :
  lower s = lower s' -> test_seq_i a b s = test_seq_i a b s'.
Proof. unfold test_seq_i. now intros ->. Qed.

End StrFacts.

(** X12.  The authentication test and the three scenarios' volatility tests
    do not look at letter case: two URLs that are equal once their letters
    are folded are classified alike, and a URL is classified as its folded
    form is. *)
Theorem classification_ignores_case (u u' : string) :
  Str.lower u = Str.lower u' ->
  (isAuthLike u = isAuthLike u' /\
   Target.amazon u = Target.amazon u' /\
   Target.airbnb u = Target.airbnb u' /\
   Target.wikipedia u = Target.wikipedia u') /\
  isAuthLike (Str.lower u) = isAuthLike u.
Proof.
  intros H.
  unfold isAuthLike, Target.amazon, Target.airbnb, Target.wikipedia.
  split.
  - rewrite !(StrFacts.test_i_lower _ u u' H), !(StrFacts.test_seq_i_lower _ _ u u' H).
    repeat split.
  - assert (H' : Str.lower (Str.lower u) = Str.lower u) by apply StrFacts.lower_idem.
    now rewrite !(StrFacts.test_i_lower _ (Str.lower u) u H').
Qed.

Lemma classification_ignores_case_witness :
  isAuthLike "https://www.amazon.com/AP/SignIn" = isAuthLike "https://www.amazon.com/ap/signin".
Proof.
  apply (classification_ignores_case "https://www.amazon.com/AP/SignIn"
           "https://www.amazon.com/ap/signin").
  vm_compute. reflexivity.
Defined.

(** X13.  The domain rule reads the whole URL: a request meets it exactly
    when one of the listed strings occurs somewhere in its URL, be it in the
    host, the path or the query. *)
Theorem blocked_domain_anywhere (u : string) :
  isBlockedDomain u = true <->
  exists domain a b, In domain BLOCKED_DOMAINS /\ u = (a ++ domain ++ b)%string.
Proof.
  unfold isBlockedDomain, Str.some. rewrite existsb_exists. split.
  - intros (d & Hd & Hi). apply StrFacts.includes_split in Hi.
    destruct Hi as (a & b & H). eauto.
  - intros (d & a & b & Hd & H). exists d. split; [assumption|].
    apply StrFacts.includes_split. eauto.
Qed.

(** ** Loading and flushing *)

Lemma in_set kv k v o : In kv (Obj.set k v o) -> kv = (k, v) \/ In kv o.
Proof.
  induction o as [|[k' v'] o IH]; cbn.
  - intros [<-|[]]. now left.
  - destruct (String.eqb k k'); cbn.
    + intros [<-|H]; [now left | right; now right].
    + intros [<-|H]; [right; now left|]. destruct (IH H); [now left | right; now right].
Qed.

Lemma in_assigned now (m : list (string * Snapshot.entry)) : forall acc kv,
  In kv (fold_left (fun c kv => Obj.set (fst kv) (Snapshot.to_entry now (snd kv)) c) m acc) ->
  In kv acc \/ exists v, snd kv = Snapshot.to_entry now v.
Proof.
  induction m as [|[k v] m IH]; intros acc kv H; cbn in H; [now left|].
  apply IH in H. destruct H as [H|H]; [|now right].
  apply in_set in H. destruct H as [->|H]; [right; now exists v | now left].
Qed.

Lemma wf_assigned now (m : list (string * Snapshot.entry)) : forall acc,
  Obj.wf acc ->
  Obj.wf (fold_left (fun c kv => Obj.set (fst kv) (Snapshot.to_entry now (snd kv)) c) m acc).
Proof.
  induction m as [|[k v] m IH]; intros acc H; cbn; [assumption|].
  apply IH. now apply ObjFacts.wf_set.
Qed.

Lemma to_entry_stamped now v : now <> 0 -> Entry.lastAccess (Snapshot.to_entry now v) <> 0.
Proof.
  intros Hn. unfold Snapshot.to_entry. cbn.
  destruct (Snapshot.lastAccess v) as [t|]; [|assumption].
  unfold or_else. destruct (Z.eqb_spec t 0); assumption.
Qed.

(** X14.  Whatever the snapshot file holds, the process starts from a sound
    state.  The store has distinct keys, even if the file repeats one; it is
    under both ceilings or empty; every entry carries a non-zero access time
    (the load time, where the file gave none); the dirty flag is raised
    exactly when the load evicted something.  A missing or unreadable file, a
    disabled cache and clear-on-start all give the empty start; the file is
    left alone unless clear-on-start deletes it. *)
Theorem load_is_sound (cfg : Config) (size : Obj.t -> N) (now : Z) (f : Snapshot.file) :
  let st := fst (loadCache cfg size now f) in
  let f' := snd (loadCache cfg size now f) in
  Obj.wf (httpCache st) /\
  (stillNeedsEviction cfg size (httpCache st) = false \/ httpCache st = []) /\
  (now <> 0 -> forall kv, In kv (httpCache st) -> Entry.lastAccess (snd kv) <> 0) /\
  cacheDirty st = (0 <? evictions (cacheStats st)) /\
  (f = Snapshot.Missing \/ f = Snapshot.Unreadable \/ CACHE_ENABLED cfg = false \/
   CACHE_CLEAR cfg = true -> st = initial) /\
  f' = (if CACHE_ENABLED cfg && CACHE_CLEAR cfg then Snapshot.Missing else f).
Proof.
  intros st f'. subst st f'. unfold loadCache.
  destruct (CACHE_ENABLED cfg) eqn:He; cbn [andb].
  2:{ cbn. repeat split; try tauto. constructor. }
  assert (Hinit : Obj.wf (httpCache initial) /\
                  (stillNeedsEviction cfg size (httpCache initial) = false \/ httpCache initial = []) /\
                  (now <> 0 -> forall kv, In kv (httpCache initial) -> Entry.lastAccess (snd kv) <> 0) /\
                  cacheDirty initial = (0 <? evictions (cacheStats initial))).
  { cbn. repeat split; [constructor | now right | intros _ ? []]. }
  destruct Hinit as (I1 & I2 & I3 & I4).
  destruct (CACHE_CLEAR cfg) eqn:Hc; cbn [andb].
  - destruct f as [| |m]; cbn [Snapshot.exists_ fst snd]; repeat split; auto.
  - destruct f as [| |m]; cbn [fst snd]; try (repeat split; auto; fail).
    match goal with |- context [set_httpCache ?c0 initial] => set (c := c0) end.
    destruct (evictLRU_spec cfg size (set_httpCache c initial))
      as (k & _ & Heq & _ & Hend & _ & Hev & Hd).
    repeat split.
    + apply evictLRU_wf. cbn. subst c. apply wf_assigned. constructor.
    + exact Hend.
    + intros Hn kv Hin. rewrite Heq in Hin. apply ObjFacts.in_removeKeys in Hin.
      destruct Hin as [Hin _]. cbn in Hin. subst c. apply in_assigned in Hin.
      destruct Hin as [[]|[v ->]]. now apply to_entry_stamped.
    + rewrite Hd, Hev. cbn [cacheDirty set_httpCache initial orb cacheStats evictions].
      now rewrite Z.add_0_l.
    + intros [H|[H|[H|H]]]; discriminate.
Qed.

Lemma dirty_step (cfg : Config) (isDynamic : string -> bool) (size : Obj.t -> N) st ev :
  cacheDirty st = true -> cacheDirty (step cfg isDynamic size st ev) = true.
Proof.
  intros Hd. destruct ev as [route req now|pid o now]; cbn [step].
  - destruct (handler_branch cfg isDynamic route req now st)
      as [Ht|Ht Hdm|Hb Hc|cached Hb Hc Hg|pid Hb Hc Hg Hdd Hp|Hb Hc Hg Hdd];
      try exact Hd.
    now destruct (joinPending_frame route (url req) (incr_duplicates st))
      as (_ & _ & _ & _ & _ & ->).
  - unfold settle.
    destruct (promises st !! pid) as [p|]; [|exact Hd].
    destruct (p_state p) as [waiters| |]; try exact Hd.
    destruct o as [r| |]; rewrite disposeAll_handled; cbn; try exact Hd.
    destruct ((200 <=? Result.status r) && (Result.status r <? 400)); [reflexivity | exact Hd].
Qed.

Lemma dirty_run (cfg : Config) (isDynamic : string -> bool) (size : Obj.t -> N) evs :
  forall st, cacheDirty st = true -> cacheDirty (run cfg isDynamic size evs st) = true.
Proof.
  induction evs as [|ev evs IH]; intros st Hd; [exact Hd|].
  rewrite run_cons. apply IH. now apply dirty_step.
Qed.

(** X15.  The flush across its await.  For a clean store or a disabled cache
    the flush returns at once, state and file as they are.  Otherwise the
    text written is the store as it is at the call, whatever is handled
    during the await: after a write that succeeds the file holds that text,
    the dirty flag is cleared and [writes] has grown by one, and the store is
    the one the events of the await have left; when only requests were
    handled meanwhile, the file holds every response of the store.  After a
    write that fails the store is still dirty.  A page fetched and stored
    during the await is in a store marked clean and not in the file. *)
Theorem flush_across_await (cfg : Config) (isDynamic : string -> bool)
    (size : Obj.t -> N) (evs : list Event) (o : WriteOutcome) (st : State)
    (f : Snapshot.file) :
  let result := writeCacheToDiskAwaited cfg isDynamic size evs o st f in
  let text := map (fun kv => (fst kv, Snapshot.of_entry (snd kv))) (httpCache st) in
  (cacheDirty st = false \/ CACHE_ENABLED cfg = false -> result = (st, f)) /\
  (cacheDirty st = true -> CACHE_ENABLED cfg = true ->
   httpCache (fst result) = httpCache (run cfg isDynamic size evs st) /\
   match o with
   | Written =>
       snd result = Snapshot.Mapping text /\
       cacheDirty (fst result) = false /\
       writes (cacheStats (fst result)) = writes (cacheStats st) + 1 /\
       (Forall (fun ev => isIntercept ev = true) evs ->
        Obj.contents (httpCache (fst result)) = Obj.contents (httpCache st))
   | WriteFailed remains =>
       fst result = run cfg isDynamic size evs st /\
       snd result = remains /\
       cacheDirty (fst result) = true
   end) /\
  writeCacheToDiskAwaited cfg isDynamic size [] Written st f = writeCacheToDisk cfg true st f /\
  (let st1 := run default_config Target.amazon Json.byteLength (Sample.visits 1) initial in
   let raced := writeCacheToDiskAwaited default_config Target.amazon Json.byteLength
                  (Sample.visit 1) Written st1 Snapshot.Missing in
   cacheDirty (fst raced) = false /\
   Obj.keys (httpCache (fst raced)) = [Sample.nth_url 0; Sample.nth_url 1] /\
   snd raced
   = Snapshot.Mapping [(Sample.nth_url 0,
                        Snapshot.of_entry
                          {| Entry.status := 200;
                             Entry.headers := [("content-type", "text/html")];
                             Entry.body := "PHA+aGk="; Entry.lastAccess := 2 |})] /\
   writeCacheToDisk default_config true (fst raced) (snd raced) = raced).
Proof.
  intros result text. subst result text. unfold writeCacheToDiskAwaited, writeCacheToDisk.
  split; [|split; [|split]].
  - intros [-> | ->]; cbn; [reflexivity | now rewrite orb_true_r].
  - intros Hd He. rewrite Hd, He. cbn [negb orb].
    destruct o as [|remains]; cbn [fst snd].
    + split; [reflexivity|]. split; [reflexivity|]. split; [reflexivity|]. split.
      * cbn. destruct (run_stats cfg isDynamic size evs st) as (_ & (_ & _ & _ & _ & _ & _ & W) & _).
        cbn zeta in W. now rewrite W.
      * intros Hreq. cbn. now apply run_intercepts_contents.
    + repeat split. now apply dirty_run.
  - destruct (negb (cacheDirty st) || negb (CACHE_ENABLED cfg)); reflexivity.
  - vm_compute. repeat split.
Qed.

(** ** No request is left behind *)

Section Attached.

Variable cfg : Config.
Variable isDynamic : string -> bool.
Variable size : Obj.t -> N.

Lemma settle_promises pid o now st key :
  promises (settle cfg size pid o now st) !! key = None -> promises st !! key = None.
Proof.
  unfold settle.
  destruct (promises st !! pid) as [p|] eqn:Ep; [|trivial].
  destruct (p_state p) as [waiters| |]; try trivial.
  assert (Hins : forall q, <[pid := q]> (promises st) !! key = None -> promises st !! key = None).
  { intros q H. destruct (decide (pid = key)) as [->|Hne].
    - rewrite lookup_insert_eq in H. discriminate.
    - now rewrite lookup_insert_ne in H. }
  destruct o as [r| |]; rewrite disposeAll_handled; cbn.
  - destruct ((200 <=? Result.status r) && (Result.status r <? 400)); cbn.
    + rewrite (proj1 (proj2 (proj2 (proj2 (proj2 (proj2 (proj2 (evictLRU_frame cfg size st)))))))).
      apply Hins.
    + apply Hins.
  - apply Hins.
  - apply Hins.
Qed.

Lemma settle_pending_sub pid o now st key owner :
  pendingRequests (settle cfg size pid o now st) !! key = Some owner ->
  pendingRequests st !! key = Some owner.
Proof.
  unfold settle.
  destruct (promises st !! pid) as [p|] eqn:Ep; [|trivial].
  destruct (p_state p) as [waiters| |]; try trivial.
  assert (Hdel : forall k, delete k (pendingRequests st) !! key = Some owner ->
                           pendingRequests st !! key = Some owner).
  { intros k H. destruct (decide (k = key)) as [->|Hne].
    - rewrite lookup_delete_eq in H. discriminate.
    - now rewrite lookup_delete_ne in H. }
  destruct o as [r| |]; rewrite disposeAll_handled; cbn.
  - destruct ((200 <=? Result.status r) && (Result.status r <? 400)); cbn.
    + rewrite (proj1 (proj2 (proj2 (proj2 (proj2 (proj2 (evictLRU_frame cfg size st))))))).
      apply Hdel.
    + apply Hdel.
  - apply Hdel.
  - trivial.
Qed.

Lemma grounded_step st ev : grounded st -> grounded (step cfg isDynamic size st ev).
Proof.
  intros Hg. destruct ev as [route req now|pid o now]; cbn [step].
  - destruct (handler_branch cfg isDynamic route req now st)
      as [Ht|Ht Hd|Hb Hc|cached Hb Hc Hgt|pid Hb Hc Hgt Hdd Hp|Hb Hc Hgt Hdd];
      try exact Hg.
    + unfold joinPending. cbn [pendingRequests promises incr_duplicates set_dedupStats].
      rewrite Hp. destruct (promises st !! pid) as [p|] eqn:Ep; [|exact Hg].
      destruct (p_state p); try exact Hg.
      intros key owner. cbn. intros Hk.
      destruct (decide (pid = owner)) as [->|Hne].
      * rewrite lookup_insert_eq. eauto.
      * rewrite lookup_insert_ne by assumption. now apply (Hg key).
    + intros key owner. unfold startFetch. cbn. intros Hk.
      destruct (decide (route = owner)) as [->|Hne].
      * rewrite lookup_insert_eq. eauto.
      * rewrite lookup_insert_ne by assumption.
        destruct (decide (url req = key)) as [E|Hne'].
        -- rewrite E, lookup_insert_eq in Hk. congruence.
        -- rewrite lookup_insert_ne in Hk by assumption. now apply (Hg key).
  - intros key owner Hk. apply settle_pending_sub in Hk. apply Hg in Hk.
    destruct (promises (settle cfg size pid o now st) !! owner) eqn:E; [eauto|].
    apply settle_promises in E. rewrite E in Hk. now destruct Hk.
Qed.

Lemma grounded_run evs : forall st, grounded st -> grounded (run cfg isDynamic size evs st).
Proof.
  induction evs as [|ev evs IH]; intros st Hg; [exact Hg|].
  rewrite run_cons. apply IH. now apply grounded_step.
Qed.

Lemma handler_attaches route req now st :
  grounded st ->
  let st' := handler cfg isDynamic route req now st in
  (exists d, handled st' = (handled st ++ [(route, d)])%list) \/
  (handled st' = handled st /\ suspended st' route).
Proof.
  intros Hg st'. subst st'.
  destruct (handler_branch cfg isDynamic route req now st)
    as [Ht|Ht Hd|Hb Hc|cached Hb Hc Hgt|pid Hb Hc Hgt Hdd Hp|Hb Hc Hgt Hdd];
    try (left; eexists; reflexivity).
  - unfold joinPending. cbn [pendingRequests promises incr_duplicates set_dedupStats].
    rewrite Hp. destruct (Hg _ _ Hp) as [p Ep]. rewrite Ep.
    destruct (p_state p) as [waiters|r|] eqn:Es; try (left; eexists; reflexivity).
    right. split; [reflexivity|].
    exists pid, {| p_key := p_key p; p_state := Pending (waiters ++ [route]) |}, (waiters ++ [route])%list.
    cbn. rewrite lookup_insert_eq. repeat split. right. apply in_or_app. right. now left.
  - right. split; [reflexivity|].
    exists route, {| p_key := url req; p_state := Pending [] |}, [].
    unfold startFetch. cbn. rewrite lookup_insert_eq. repeat split. now left.
Qed.

End Attached.

(** X16.  In a process that starts by loading the snapshot, every entry of
    the registry points at a promise that exists, whatever the events; and
    in such a state the handler never lets go of a request: when it returns
    the route is disposed of, or it is suspended on a promise still pending,
    as its owner or as one of its waiters. *)
Theorem request_disposed_or_suspended (cfg : Config) (isDynamic : string -> bool)
    (size : Obj.t -> N) (start : Z) (f : Snapshot.file) (evs : list Event)
    (route : nat) (req : Request) (now : Z) :
  let st := run cfg isDynamic size evs (fst (loadCache cfg size start f)) in
  let st' := handler cfg isDynamic route req now st in
  grounded st /\
  ((exists d, handled st' = (handled st ++ [(route, d)])%list) \/
   (handled st' = handled st /\ suspended st' route)).
Proof.
  intros st st'.
  assert (Hg : grounded st).
  { apply grounded_run. intros key pid H.
    destruct (loadCache_fresh cfg size start f) as (_ & _ & _ & _ & _ & P & _).
    rewrite P, lookup_empty in H. discriminate. }
  split; [exact Hg|]. now apply handler_attaches.
Qed.

(** X17.  A promise settles once.  When the fetch of a pending promise ends,
    its owner and its waiters are disposed of, each once, the owner first and
    the waiters in the order they joined, and the promise is pending no more;
    the end of a fetch whose promise is unknown or no longer pending changes
    nothing, so that a second end of the same fetch is without effect. *)
Theorem promise_settles_once (cfg : Config) (size : Obj.t -> N) (pid : nat)
    (o o' : FetchOutcome) (now now' : Z) (st : State) :
  let st' := settle cfg size pid o now st in
  (forall key waiters,
     promises st !! pid = Some {| p_key := key; p_state := Pending waiters |} ->
     let owner := match o with Responds r => Fulfilled r | Empty => Continued | Rejects => Threw end in
     let waiter := match o with Responds r => Fulfilled r | _ => Threw end in
     handled st' = (handled st ++ (pid, owner) :: map (fun w => (w, waiter)) waiters)%list /\
     exists p, promises st' !! pid = Some p /\ forall ws, p_state p <> Pending ws) /\
  ((forall p ws, promises st !! pid = Some p -> p_state p <> Pending ws) -> st' = st) /\
  settle cfg size pid o' now' st' = st'.
Proof.
  intros st'.
  assert (Hidle : forall s, (forall p ws, promises s !! pid = Some p -> p_state p <> Pending ws) ->
                            forall o0 n0, settle cfg size pid o0 n0 s = s).
  { intros s H o0 n0. unfold settle.
    destruct (promises s !! pid) as [p|] eqn:Ep; [|reflexivity].
    destruct (p_state p) as [ws| |] eqn:Es; try reflexivity.
    exfalso. now apply (H p ws). }
  assert (Hdone : forall key waiters,
             promises st !! pid = Some {| p_key := key; p_state := Pending waiters |} ->
             exists p, promises st' !! pid = Some p /\ forall ws, p_state p <> Pending ws).
  { intros key waiters Hp. destruct o as [r| |].
    - destruct (settle_responds cfg size pid key waiters r now st Hp)
        as (_ & _ & _ & _ & _ & _ & S7 & _).
      fold st' in S7. rewrite S7, lookup_insert_eq. eexists. split; [reflexivity|]. discriminate.
    - subst st'. unfold settle. rewrite Hp. cbn [p_state p_key].
      rewrite disposeAll_handled. cbn. rewrite lookup_insert_eq.
      eexists. split; [reflexivity|]. discriminate.
    - destruct (settle_rejects cfg size pid key waiters now st Hp) as (_ & S2 & _).
      fold st' in S2. rewrite S2, lookup_insert_eq. eexists. split; [reflexivity|]. discriminate. }
  split; [|split].
  - intros key waiters Hp owner waiter. split; [|now apply (Hdone key waiters)].
    subst owner waiter. destruct o as [r| |].
    + now destruct (settle_responds cfg size pid key waiters r now st Hp)
        as (_ & _ & _ & _ & _ & _ & _ & _ & S9).
    + now destruct (settle_empty cfg size pid key waiters now st Hp) as (_ & _ & _ & S4).
    + now destruct (settle_rejects cfg size pid key waiters now st Hp) as (_ & _ & _ & _ & S5).
  - intros H. now apply Hidle.
  - apply Hidle. intros p ws Hp Hs.
    destruct (promises st !! pid) as [q|] eqn:Eq.
    + destruct q as [key [waiters| |]] eqn:Eqq.
      * destruct (Hdone key waiters eq_refl) as (p' & Hp' & Hnp).
        rewrite Hp in Hp'. injection Hp' as <-. now apply (Hnp ws).
      * subst st'. unfold settle in Hp. rewrite Eq in Hp. cbn in Hp.
        rewrite Eq in Hp. injection Hp as <-. discriminate.
      * subst st'. unfold settle in Hp. rewrite Eq in Hp. cbn in Hp.
        rewrite Eq in Hp. injection Hp as <-. discriminate.
    + subst st'. unfold settle in Hp. rewrite Eq in Hp. congruence.
Qed.

(** ** The authentication set-up *)

Module AuthFacts.
Import Auth.

Lemma cookieValid_earlier (now now' : Q) (c : Cookie) :
  (now <= now')%Q -> cookieValid now' c = true -> cookieValid now c = true.
Proof.
  unfold cookieValid. intros Hle. destruct (expires c) as [e|]; [|trivial].
  rewrite !orb_true_iff, !negb_true_iff. intros [H|H]; [now left|right].
  destruct (Qle_bool e now) eqn:E; [|reflexivity].
  apply Qle_bool_iff in E.
  assert (Hn : Qle_bool e now' = true) by (apply Qle_bool_iff; now apply (Qle_trans _ now)).
  congruence.
Qed.

Lemma tooOld_later (env : Env) (age age' : Q) :
  (age <= age')%Q -> tooOld env age = true -> tooOld env age' = true.
Proof.
  unfold tooOld. intros Hle. destruct (expiryMinutes env) as [m|]; [|trivial].
  rewrite !Qle_bool_iff. intros H. now apply (Qle_trans _ age).
Qed.

Lemma valid_iff (env : Env) (f : File) (now age : Q) :
  isAuthStateValid env f now age = true <->
  exists cookies, f = Some (State (Some cookies)) /\
                  Str.some (cookieValid now) cookies = true /\ tooOld env age = false.
Proof.
  unfold isAuthStateValid. split.
  - destruct f as [[|[[|c cs]|]]|]; try discriminate.
    destruct (Str.some (cookieValid now) (c :: cs)) eqn:E1; [|discriminate].
    destruct (tooOld env age) eqn:E2; [discriminate|]. cbn [negb]. eauto.
  - intros (cookies & -> & H1 & H2). destruct cookies as [|c cs]; [discriminate|].
    now rewrite H1, H2.
Qed.

End AuthFacts.

(** X18.  What the check never accepts: a missing file, a file that cannot be
    read, a state without cookies or with an empty list (the state written
    when authentication is skipped), and a state all of whose cookies carry
    an expiry that is not zero and not later than now.  Cookies with a
    negative expiry are of the last kind at any time from the epoch on. *)
Theorem auth_state_rejected (env : Auth.Env) (now age : Q) (cookies : list Auth.Cookie) :
  Auth.isAuthStateValid env None now age = false /\
  Auth.isAuthStateValid env (Some Auth.Unparsable) now age = false /\
  Auth.isAuthStateValid env (Some (Auth.State None)) now age = false /\
  Auth.isAuthStateValid env (Some Auth.emptyState) now age = false /\
  ((forall c, In c cookies ->
      exists e, Auth.expires c = Some e /\ ~ (e == 0)%Q /\ (e <= now)%Q) ->
   Auth.isAuthStateValid env (Some (Auth.State (Some cookies))) now age = false) /\
  ((forall c, In c cookies -> exists e, Auth.expires c = Some e /\ (e < 0)%Q) ->
   (0 <= now)%Q ->
   Auth.isAuthStateValid env (Some (Auth.State (Some cookies))) now age = false).
Proof.
  assert (Hexp : (forall c, In c cookies ->
                    exists e, Auth.expires c = Some e /\ ~ (e == 0)%Q /\ (e <= now)%Q) ->
                 Auth.isAuthStateValid env (Some (Auth.State (Some cookies))) now age = false).
  { intros Hall.
    destruct (Auth.isAuthStateValid env (Some (Auth.State (Some cookies))) now age) eqn:E;
      [|reflexivity].
    apply AuthFacts.valid_iff in E. destruct E as (cs & [= <-] & Hsome & _).
    unfold Str.some in Hsome. apply existsb_exists in Hsome.
    destruct Hsome as (c & Hin & Hv). destruct (Hall c Hin) as (e & He & Hnz & Hle).
    unfold Auth.cookieValid in Hv. rewrite He in Hv.
    apply orb_true_iff in Hv. destruct Hv as [Hv|Hv].
    - apply Qeq_bool_iff in Hv. contradiction.
    - apply negb_true_iff in Hv. apply Qle_bool_iff in Hle. congruence. }
  repeat split; try reflexivity; [exact Hexp|].
  intros Hneg Hnow. apply Hexp. intros c Hin.
  destruct (Hneg c Hin) as (e & He & Hlt). exists e. repeat split; [assumption| |].
  - intros Hz. rewrite Hz in Hlt. now apply Qlt_irrefl in Hlt.
  - apply Qlt_le_weak. now apply (Qlt_le_trans _ 0).
Qed.

Lemma auth_state_rejected_witness :
  Auth.isAuthStateValid Auth.default_env
    (Some (Auth.State (Some [ {| Auth.expires := Some (-1 # 1) |} ]))) (1700000000 # 1) 0
  = false.
Proof.
  apply (auth_state_rejected Auth.default_env (1700000000 # 1) 0
           [ {| Auth.expires := Some (-1 # 1) |} ]).
  - intros c [<-|[]]. exists (-1 # 1). split; reflexivity.
  - discriminate.
Defined.

(** X19.  A state that is valid now was valid at any earlier reading of the
    clock: validity is lost with time and never regained while the file stays
    the same.  With [AUTH_EXPIRY_MINUTES] not a number the age of the file is
    not looked at; with a window of zero minutes or less no file of
    non-negative age is valid. *)
Theorem auth_validity_wears_off (env : Auth.Env) (f : Auth.File) (now now' age age' : Q) :
  ((now <= now')%Q -> (age <= age')%Q ->
   Auth.isAuthStateValid env f now' age' = true ->
   Auth.isAuthStateValid env f now age = true) /\
  (Auth.expiryMinutes env = None ->
   Auth.isAuthStateValid env f now age = Auth.isAuthStateValid env f now age') /\
  (forall m, Auth.expiryMinutes env = Some m -> m <= 0 -> (0 <= age)%Q ->
             Auth.isAuthStateValid env f now age = false).
Proof.
  split; [|split].
  - intros Hn Ha H. apply AuthFacts.valid_iff in H. destruct H as (cs & -> & Hs & Ht).
    apply AuthFacts.valid_iff. exists cs. repeat split.
    + unfold Str.some in *. apply existsb_exists in Hs. destruct Hs as (c & Hin & Hv).
      apply existsb_exists. exists c. split; [assumption|].
      now apply (AuthFacts.cookieValid_earlier now now').
    + destruct (Auth.tooOld env age) eqn:E; [|reflexivity].
      apply (AuthFacts.tooOld_later env age age' Ha) in E. congruence.
  - intros Hm. unfold Auth.isAuthStateValid, Auth.tooOld. now rewrite Hm.
  - intros m Hm Hle Hage.
    destruct (Auth.isAuthStateValid env f now age) eqn:E; [|reflexivity].
    apply AuthFacts.valid_iff in E. destruct E as (cs & _ & _ & Ht).
    unfold Auth.tooOld in Ht. rewrite Hm in Ht.
    assert (Hq : Qle_bool (inject_Z (1000 * 60 * m)) age = true).
    { apply Qle_bool_iff. apply (Qle_trans _ 0); [|assumption].
      unfold Qle. cbn. lia. }
    congruence.
Qed.

Lemma auth_validity_wears_off_witness :
  let f := Some (Auth.State (Some [ {| Auth.expires := Some (2000 # 1) |} ])) in
  Auth.isAuthStateValid Auth.default_env f (1000 # 1) (60000 # 1) = true.
Proof.
  intros f.
  destruct (auth_validity_wears_off Auth.default_env f (1000 # 1) (1500 # 1)
              (60000 # 1) (120000 # 1)) as [H _].
  apply H; [discriminate | discriminate | vm_compute; reflexivity].
Defined.

(** X20.  The set-up reuses the saved state exactly when the check accepts it
    and re-authentication is not forced, and then leaves the file as it is.
    When it reuses the state or when authentication is disabled, no log-in
    is attempted: the outcome of a log-in has no bearing.  In every other
    case a file is there afterwards. *)
Theorem auth_reuse_decision (env : Auth.Env) (f : Auth.File) (now age : Q)
    (login login' : Auth.Login) :
  let result := Auth.authenticate env f now age login in
  (fst result = Auth.Reused <->
   Auth.isAuthStateValid env f now age = true /\ Auth.force env = false) /\
  (fst result = Auth.Reused -> snd result = f) /\
  (fst result <> Auth.Reused -> snd result <> None) /\
  (fst result = Auth.Reused \/ Auth.disabled env = true ->
   Auth.authenticate env f now age login' = result) /\
  (Auth.force env = true -> fst result <> Auth.Reused).
Proof.
  intros result. subst result. unfold Auth.authenticate.
  destruct (Auth.isAuthStateValid env f now age), (Auth.force env), (Auth.disabled env),
    login, login'; cbn; repeat split; try tauto; try discriminate; try congruence;
    intros; try tauto; try discriminate;
    repeat match goal with H : _ /\ _ |- _ => destruct H | H : _ \/ _ |- _ => destruct H end;
    congruence.
Qed.

(** X21.  After a set-up that skipped authentication or fell back from a
    failed log-in, the file holds the empty state, which no later check
    accepts: the next set-up, whatever its environment and its clock, does
    not reuse it. *)
Theorem auth_empty_state_not_reused (env env' : Auth.Env) (f : Auth.File)
    (now age now' age' : Q) (login login' : Auth.Login) :
  let first := Auth.authenticate env f now age login in
  fst first = Auth.Skipped \/ fst first = Auth.FellBack ->
  snd first = Some Auth.emptyState /\
  Auth.isAuthStateValid env' (snd first) now' age' = false /\
  fst (Auth.authenticate env' (snd first) now' age' login') <> Auth.Reused.
Proof.
  intros first H.
  assert (E : snd first = Some Auth.emptyState).
  { subst first. unfold Auth.authenticate in *.
    destruct (Auth.isAuthStateValid env f now age && negb (Auth.force env));
      [cbn in H; destruct H; discriminate|].
    destruct (Auth.disabled env); [reflexivity|].
    destruct login; [cbn in H; destruct H; discriminate | reflexivity]. }
  rewrite E. repeat split.
  unfold Auth.authenticate. cbn.
  destruct (Auth.disabled env'); [discriminate|]. destruct login'; discriminate.
Qed.

Lemma auth_empty_state_not_reused_witness :
  fst (Auth.authenticate Auth.default_env
         (snd (Auth.authenticate Auth.default_env None 0 0 Auth.LoginFailed))
         (1 # 1) (1 # 1) Auth.LoginFailed)
  <> Auth.Reused.
Proof.
  apply (auth_empty_state_not_reused Auth.default_env Auth.default_env None 0 0
           (1 # 1) (1 # 1) Auth.LoginFailed Auth.LoginFailed).
  right. reflexivity.
Defined.

(** X22.  A state saved by a successful log-in is reused by the next set-up
    when re-authentication is not forced, one of the saved cookies has no
    expiry, an expiry of zero, or an expiry later than the clock, and the
    file is younger than the window; the file is then left as saved. *)
Theorem auth_saved_state_reused (env env' : Auth.Env) (f : Auth.File)
    (now age now' age' : Q) (cookies : list Auth.Cookie) (c : Auth.Cookie)
    (login' : Auth.Login) :
  let first := Auth.authenticate env f now age (Auth.LoggedIn cookies) in
  fst first = Auth.Saved ->
  In c cookies -> Auth.cookieValid now' c = true ->
  Auth.tooOld env' age' = false ->
  Auth.force env' = false ->
  Auth.authenticate env' (snd first) now' age' login'
  = (Auth.Reused, Some (Auth.State (Some cookies))).
Proof.
  intros first Hs Hin Hv Ht Hf.
  assert (E : snd first = Some (Auth.State (Some cookies))).
  { subst first. unfold Auth.authenticate in *.
    destruct (Auth.isAuthStateValid env f now age && negb (Auth.force env));
      [discriminate|].
    destruct (Auth.disabled env); [discriminate | reflexivity]. }
  rewrite E. unfold Auth.authenticate.
  assert (Hvalid : Auth.isAuthStateValid env' (Some (Auth.State (Some cookies))) now' age' = true).
  { apply AuthFacts.valid_iff. exists cookies. repeat split; [|assumption].
    unfold Str.some. apply existsb_exists. eauto. }
  now rewrite Hvalid, Hf.
Qed.

Lemma auth_saved_state_reused_witness :
  let cookies := [ {| Auth.expires := Some (2000 # 1) |} ] in
  Auth.authenticate Auth.default_env
    (snd (Auth.authenticate Auth.default_env None 0 0 (Auth.LoggedIn cookies)))
    (1000 # 1) (60000 # 1) Auth.LoginFailed
  = (Auth.Reused, Some (Auth.State (Some cookies))).
Proof.
  intros cookies.
  apply (auth_saved_state_reused Auth.default_env Auth.default_env None 0 0
           (1000 # 1) (60000 # 1) cookies {| Auth.expires := Some (2000 # 1) |});
    try reflexivity.
  now left.
Defined.

(** ** Across a restart, and what a hit buys *)

Lemma get_mapped (g : Entry.t -> Entry.t) k (c : Obj.t) :
  Obj.get k (map (fun kv => (fst kv, g (snd kv))) c) = option_map g (Obj.get k c).
Proof.
  induction c as [|[k' v] c IH]; cbn; [reflexivity|].
  destruct (String.eqb k k'); [reflexivity | exact IH].
Qed.

Lemma in_get k v (o : Obj.t) : Obj.wf o -> In (k, v) o -> Obj.get k o = Some v.
Proof.
  unfold Obj.wf, Obj.keys. induction o as [|[k' v'] o IH]; cbn; [tauto|].
  intros Hwf. apply NoDup_cons in Hwf. destruct Hwf as [Hk Hnd].
  intros [[= -> ->]|Hin].
  - now rewrite String.eqb_refl.
  - destruct (String.eqb_spec k k') as [->|Hne]; [|now apply IH].
    exfalso. apply Hk. apply list_elem_of_In. now apply (in_map fst) in Hin.
Qed.

Lemma loaded_after_flush (cfg : Config) (size : Obj.t -> N) (st : State)
    (f : Snapshot.file) (now : Z) :
  CACHE_ENABLED cfg = true -> CACHE_CLEAR cfg = false ->
  cacheDirty st = true -> Obj.wf (httpCache st) ->
  let reread :=
    map (fun kv => (fst kv, Snapshot.to_entry now (Snapshot.of_entry (snd kv)))) (httpCache st) in
  fst (loadCache cfg size now (snd (writeCacheToDisk cfg true st f)))
  = evictLRU cfg size (set_httpCache reread initial).
Proof.
  intros He Hc Hd Hwf reread. unfold writeCacheToDisk, loadCache.
  rewrite Hd, He, Hc. cbn [negb orb andb snd fst].
  rewrite (assign_all (Snapshot.to_entry now)).
  - cbn [app]. rewrite map_map. reflexivity.
  - rewrite map_map. cbn [fst]. exact Hwf.
  - intros k _ [].
Qed.

(** X23.  What was cached in one run answers in the next.  Let a dirty store
    be flushed with success and the snapshot be loaded by a process with the
    cache enabled and clear-on-start off, the store read back being under both
    ceilings.  A cacheable request for a key the store held is then fulfilled
    from the loaded store with the status, headers and body bytes of the held
    entry, and no upstream fetch is issued. *)
Theorem cache_survives_restart (cfg : Config) (isDynamic : string -> bool)
    (size : Obj.t -> N) (st : State) (f : Snapshot.file) (now now' : Z)
    (route : nat) (req : Request) (e : Entry.t) :
  CACHE_ENABLED cfg = true ->
  CACHE_CLEAR cfg = false ->
  cacheDirty st = true ->
  Obj.wf (httpCache st) ->
  stillNeedsEviction cfg size
    (map (fun kv => (fst kv, Snapshot.to_entry now (Snapshot.of_entry (snd kv)))) (httpCache st))
  = false ->
  isBlocked cfg req = false ->
  cacheable cfg isDynamic req = true ->
  Obj.get (url req) (httpCache st) = Some e ->
  let loaded := fst (loadCache cfg size now (snd (writeCacheToDisk cfg true st f))) in
  let st' := handler cfg isDynamic route req now' loaded in
  handled st'
  = [(route, Fulfilled {| Result.status := Entry.status e;
                          Result.headers := Entry.headers e;
                          Result.body := Base64.decode (Entry.body e) |})] /\
  fetched st' = [] /\
  hits (cacheStats st') = 1.
Proof.
  intros He Hc Hd Hwf Hp Hb Hca Hg loaded st'.
  assert (El : loaded = set_httpCache
                 (map (fun kv => (fst kv, Snapshot.to_entry now (Snapshot.of_entry (snd kv))))
                    (httpCache st)) initial).
  { subst loaded. rewrite loaded_after_flush by assumption.
    apply evictLRU_idle. now left. }
  assert (Hg' : Obj.get (url req) (httpCache loaded)
                = Some (Snapshot.to_entry now (Snapshot.of_entry e))).
  { rewrite El. cbn [httpCache set_httpCache].
    rewrite (get_mapped (fun v => Snapshot.to_entry now (Snapshot.of_entry v))).
    now rewrite Hg. }
  subst st'.
  rewrite (handler_hit cfg isDynamic route req now' loaded _ Hb Hca Hg').
  rewrite El. cbn. repeat split.
Qed.

Lemma cache_survives_restart_witness :
  let st := run default_config Target.amazon Json.byteLength (Sample.visits 2) initial in
  let loaded := fst (loadCache default_config Json.byteLength 1000
                       (snd (writeCacheToDisk default_config true st Snapshot.Missing))) in
  fetched (handler default_config Target.amazon 9 (Sample.page (Sample.nth_url 1)) 1001 loaded)
  = [].
Proof.
  intros st loaded.
  assert (Hwf : Obj.wf (httpCache st)).
  { unfold Obj.wf. apply (bool_decide_unpack _). vm_compute. exact I. }
  eapply (cache_survives_restart default_config Target.amazon Json.byteLength st
            Snapshot.Missing 1000 1001 9 (Sample.page (Sample.nth_url 1)));
    try exact Hwf; vm_compute; reflexivity.
Defined.

(** X24.  The entry a request has just been served from is the last to be
    evicted.  If the hit comes later than every recorded access, then however
    many entries an eviction that follows removes, the entry hit is among
    those that remain, unless none remains. *)
Theorem hit_entry_evicted_last (cfg : Config) (isDynamic : string -> bool)
    (size : Obj.t -> N) (route : nat) (req : Request) (now : Z) (st : State)
    (cached : Entry.t) :
  isBlocked cfg req = false ->
  cacheable cfg isDynamic req = true ->
  Obj.get (url req) (httpCache st) = Some cached ->
  Obj.wf (httpCache st) ->
  (forall kv, In kv (httpCache st) -> Entry.lastAccess (snd kv) < now) ->
  let st' := evictLRU cfg size (handler cfg isDynamic route req now st) in
  httpCache st' <> [] ->
  Obj.get (url req) (httpCache st') = Some (Entry.touch now cached).
Proof.
  intros Hb Hc Hg Hwf Hold st' Hne. subst st'.
  rewrite (handler_hit cfg isDynamic route req now st cached Hb Hc Hg) in *.
  set (st1 := serveCached route (url req) cached now st) in *.
  set (x := (url req, Entry.touch now cached)).
  assert (Hc1 : httpCache st1 = Obj.set (url req) (Entry.touch now cached) (httpCache st))
    by reflexivity.
  assert (Hwf1 : Obj.wf (httpCache st1)) by (rewrite Hc1; now apply ObjFacts.wf_set).
  assert (Hothers : forall kv, In kv (httpCache st1) -> kv = x \/ Entry.lastAccess (snd kv) < now).
  { intros kv Hin. rewrite Hc1 in Hin. apply in_set in Hin.
    destruct Hin as [->|Hin]; [now left | right; now apply Hold]. }
  assert (Hx : In x (httpCache st1)).
  { apply ObjFacts.get_Some_in. rewrite Hc1. apply ObjFacts.get_set_eq. }
  destruct (evictLRU_spec cfg size st1) as (m & _ & Heq & _).
  set (sorted := JsArray.sort compareFn (httpCache st1)) in *.
  assert (Hperm : Permutation sorted (httpCache st1)) by apply SortFacts.sort_perm.
  assert (Hkept : forall kv, In kv (httpCache (evictLRU cfg size st1)) <-> In kv (skipn m sorted)).
  { intros kv. rewrite Heq. now apply evicted_and_kept. }
  apply in_get; [now apply evictLRU_wf|].
  apply Hkept.
  destruct (httpCache (evictLRU cfg size st1)) as [|y rest] eqn:Ey; [congruence|].
  assert (Hy : In y (skipn m sorted)) by (apply Hkept; now left).
  assert (Hxs : In x sorted) by (eapply Permutation_in; [symmetry; exact Hperm | exact Hx]).
  rewrite <- (firstn_skipn m sorted) in Hxs. apply in_app_or in Hxs.
  destruct Hxs as [Hxf|Hxs]; [|exact Hxs].
  pose proof (SortFacts.sorted_split_older sorted m x y (SortFacts.sort_sorted _) Hxf Hy) as Ho.
  unfold older in Ho. cbn in Ho.
  assert (Hyin : In y (httpCache st1)).
  { eapply Permutation_in; [exact Hperm|].
    rewrite <- (firstn_skipn m sorted). apply in_or_app. now right. }
  destruct (Hothers y Hyin) as [->|Hlt]; [exact Hy | lia].
Qed.

Lemma hit_entry_evicted_last_witness :
  let u := "https://www.amazon.com/a" in
  let st := Sample.with_cache
              [ (u, Sample.entry_at 10);
                ("https://www.amazon.com/b", Sample.entry_at 20);
                ("https://www.amazon.com/c", Sample.entry_at 30) ] in
  Obj.get u
    (httpCache (evictLRU Sample.three_entries Json.byteLength
                  (handler Sample.three_entries Target.amazon 1 (Sample.page u) 40 st)))
  = Some (Entry.touch 40 (Sample.entry_at 10)).
Proof.
  intros u st.
  apply (hit_entry_evicted_last Sample.three_entries Target.amazon Json.byteLength 1
           (Sample.page u) 40 st (Sample.entry_at 10)); try (vm_compute; reflexivity).
  - unfold Obj.wf. apply (bool_decide_unpack _). vm_compute. exact I.
  - intros kv [<-|[<-|[<-|[]]]]; cbn; lia.
  - vm_compute. discriminate.
Defined.
